(** * Charrito memory game: the engine of [src/index.tsx]

    A shallow embedding of the React component [App]: the deck built by the
    [shuffledCards] memo, the click / pair-check / win / timer logic, the
    mismatch timeout and the high-score ledger with its [localStorage] copy.

    Numbers are [Z]; arrays are lists read with stdpp's lookup; a JS string
    is a [string] whose characters stand for code units below 256.

    The component's state is one record, [World].  An event (a click, a
    tick of the interval, a timeout firing) is processed from start to
    finish before the next one: its handler runs against the current state,
    then the component renders and runs the effects whose dependencies
    changed, again and again until none is due.  Sound, confetti, mute and
    fullscreen are left out. *)

From Stdlib Require Import ZArith Lia String Ascii Permutation.
From Stdlib Require Import DecimalString DecimalZ DecimalPos.
From stdpp Require Import base tactics option numbers list strings sorting.

Local Open Scope string_scope.
Local Open Scope list_scope.

(** ** Configuration constants (index.tsx 6-21) *)

Definition IMAGE_PATHS : list string :=
  [ "/images/image-1.png"; "/images/image-2.png"; "/images/image-3.png";
    "/images/image-4.png"; "/images/image-5.png"; "/images/image-6.png";
    "/images/image-7.png"; "/images/image-8.png"; "/images/image-9.png";
    "/images/image-10.png" ].

Definition GRID_ROWS : Z := 5.
Definition GRID_COLS : Z := 4.
Definition GAME_DURATION : Z := 180.

(** ** Data model (index.tsx 23-37) *)

(** The object literal built in [cardPairs]: a card that has no [id] yet. *)
Record CardFace := mkFace {
  faceImageId : Z;
  faceImageUrl : string;
  faceIsFlipped : bool;
  faceIsMatched : bool
}.

Record CardState := mkCard {
  id : Z;
  imageId : Z;
  imageUrl : string;
  isFlipped : bool;
  isMatched : bool
}.

Record HighScore := mkScore {
  name : string;
  time : Z;
  scoreMoves : Z
}.

Inductive GameState := start | playing | awaitingName | won | lost.

#[global] Instance CardState_eq_dec : EqDecision CardState.
Proof. solve_decision. Defined.
#[global] Instance HighScore_eq_dec : EqDecision HighScore.
Proof. solve_decision. Defined.
#[global] Instance GameState_eq_dec : EqDecision GameState.
Proof. solve_decision. Defined.

(** ** Displaying a time (index.tsx 39-43) *)

(** A number in a template literal: decimal digits, with a minus sign for
    a negative integer. *)
Definition numberToString (n : Z) : string :=
  NilZero.string_of_int (Z.to_int n).

(** [Math.floor] of a quotient of integers is floored division; [%] keeps
    the sign of the dividend. *)
Definition formatTime (seconds : Z) : string :=
  let mins := (seconds / 60)%Z in
  let secs := Z.rem seconds 60 in
  numberToString mins ++ ":" ++ (if (secs <? 10)%Z then "0" else "")
    ++ numberToString secs.

(** ** [Math.random] as explicit state

    The state is the list of draws still to come; a draw [d] stands for the
    value [d / 2^53] in [0, 1).  An exhausted source keeps answering 0. *)

Definition Rand (A : Type) : Type := list Z -> A * list Z.

Definition ret {A} (a : A) : Rand A := fun s => (a, s).
Definition bind {A B} (m : Rand A) (k : A -> Rand B) : Rand B :=
  fun s => let (a, s') := m s in k a s'.

Notation "'draw' x <~ m 'in' k" := (bind m (fun x => k))
  (at level 10, x name, m at level 100, k at level 200).

Definition Math_random : Rand Z :=
  fun s => match s with
           | [] => (0%Z, [])
           | d :: s' => (d, s')
           end.

(** [() => Math.random() - 0.5], scaled by 2^54 so that it stays in [Z];
    only the sign of a comparator's answer is ever looked at. *)
Definition randomComparator {A} (_ _ : A) : Rand Z :=
  draw d <~ Math_random in ret (2 * d - 2 ^ 53)%Z.

(** The type of [Array.prototype.sort] with an effectful comparator. *)
Definition ArraySort : Type :=
  forall A : Type, (A -> A -> Rand Z) -> list A -> Rand (list A).

(** One concrete engine: insertion sort, asking the comparator before each
    shift. *)
Fixpoint insertM {A} (cmp : A -> A -> Rand Z) (x : A) (l : list A) : Rand (list A) :=
  match l with
  | [] => ret [x]
  | y :: l' =>
      draw c <~ cmp x y in
      if (c <? 0)%Z then ret (x :: y :: l')
      else draw r <~ insertM cmp x l' in ret (y :: r)
  end.

Fixpoint insertionSort (A : Type) (cmp : A -> A -> Rand Z) (l : list A) : Rand (list A) :=
  match l with
  | [] => ret []
  | x :: l' => draw s <~ insertionSort A cmp l' in insertM cmp x s
  end.

(** ** Deck generator (index.tsx 73-85) *)

(** [arr.slice(0, end)]: a fractional [end] is truncated by the caller, a
    negative one counts from the end of the array. *)
Definition slice0 {A} (end_ : Z) (arr : list A) : list A :=
  if (end_ <? 0)%Z then take (Z.to_nat (Z.of_nat (length arr) + end_)) arr
  else take (Z.to_nat end_) arr.

(** [(GRID_ROWS * GRID_COLS) / 2] as [slice] reads it: truncated to an
    integer. *)
Definition requiredImagesCount (rows cols : Z) : Z := Z.quot (rows * cols) 2.

Definition cardPairs (pool : list string) (rows cols : Z) : list CardFace :=
  imap (fun index imagePath =>
          {| faceImageId := Z.of_nat index;
             faceImageUrl := imagePath;
             faceIsFlipped := false;
             faceIsMatched := false |})
       (slice0 (requiredImagesCount rows cols) pool).

(** [{ ...card, id: index }] *)
Definition withId (index : nat) (card : CardFace) : CardState :=
  {| id := Z.of_nat index;
     imageId := faceImageId card;
     imageUrl := faceImageUrl card;
     isFlipped := faceIsFlipped card;
     isMatched := faceIsMatched card |}.

Definition buildDeck (sort : ArraySort) (pool : list string) (rows cols : Z)
  : Rand (list CardState) :=
  let pairs := cardPairs pool rows cols in
  draw sorted <~ sort CardFace randomComparator (pairs ++ pairs) in
  ret (imap withId sorted).

Definition shuffledCards (sort : ArraySort) : Rand (list CardState) :=
  buildDeck sort IMAGE_PATHS GRID_ROWS GRID_COLS.

(** ** Exceptions *)

Inductive JsError := TypeError | SyntaxError | StorageError | MaxUpdateDepth.

Inductive result (A : Type) :=
  | Ok (a : A)
  | Throw (e : JsError).
Arguments Ok {A} a.
Arguments Throw {A} e.

(** ** High-score ledger (index.tsx 213-223) *)

(** The comparator handed to [sort] in [handleNameSubmit]. *)
Definition compareScores (a b : HighScore) : Z :=
  if negb (time a =? time b)%Z then (time a - time b)%Z
  else (scoreMoves a - scoreMoves b)%Z.

(** [Array.prototype.sort] with a pure comparator.  The language fixes the
    outcome for a consistent comparator: the stable sorted order.  Insertion
    from the right, placing an element before the first one that is not
    smaller, produces it. *)
Fixpoint insertBy {A} (cmp : A -> A -> Z) (x : A) (l : list A) : list A :=
  match l with
  | [] => [x]
  | y :: l' => if (cmp x y <=? 0)%Z then x :: y :: l' else y :: insertBy cmp x l'
  end.

Fixpoint sortBy {A} (cmp : A -> A -> Z) (l : list A) : list A :=
  match l with
  | [] => []
  | x :: l' => insertBy cmp x (sortBy cmp l')
  end.

(** [[...highScores, newScore].sort(...).slice(0, 5)] *)
Definition updatedScores (highScores : list HighScore) (newScore : HighScore)
  : list HighScore :=
  slice0 5 (sortBy compareScores (highScores ++ [newScore])).

(** ** [String.prototype.trim] on code units below 256 *)

Definition isWhiteSpace (c : ascii) : bool :=
  let n := nat_of_ascii c in
  (n =? 9)%nat || (n =? 10)%nat || (n =? 11)%nat || (n =? 12)%nat
  || (n =? 13)%nat || (n =? 32)%nat || (n =? 160)%nat.

Fixpoint trimStart (s : string) : string :=
  match s with
  | EmptyString => EmptyString
  | String c s' => if isWhiteSpace c then trimStart s' else s
  end.

Fixpoint trimEnd (s : string) : string :=
  match s with
  | EmptyString => EmptyString
  | String c s' =>
      match trimEnd s' with
      | EmptyString => if isWhiteSpace c then EmptyString else String c EmptyString
      | t => String c t
      end
  end.

Definition trim (s : string) : string := trimEnd (trimStart s).

(** ** [localStorage]

    The text stored under ['memoryGameHighScores'] is kept by what
    [JSON.parse] makes of it.  [StoredText] is the text the component's
    types allow for: the serialisation of a ledger, or text that
    [JSON.parse] rejects, of which all that matters is whether it is the
    empty string.  Text that parses to a value of another kind is the
    subject of [UntypedText] further down.  [readable] and [writable] say
    whether [getItem] and [setItem] return or throw. *)

Inductive StoredText :=
  | JsonScores (scores : list HighScore)
  | Malformed (isEmpty : bool).

Record Storage := mkStorage {
  item : option StoredText;
  readable : bool;
  writable : bool
}.

Definition JSON_stringify (scores : list HighScore) : StoredText := JsonScores scores.

Definition JSON_parse (text : StoredText) : result (list HighScore) :=
  match text with
  | JsonScores scores => Ok scores
  | Malformed _ => Throw SyntaxError
  end.

(** A string is falsy exactly when it is empty; a serialised ledger never
    is. *)
Definition truthy (text : StoredText) : bool :=
  match text with
  | JsonScores _ => true
  | Malformed isEmpty => negb isEmpty
  end.

Definition getItem (st : Storage) : result (option StoredText) :=
  if readable st then Ok (item st) else Throw StorageError.

Definition setItem (text : StoredText) (st : Storage) : result Storage :=
  if writable st then Ok (mkStorage (Some text) (readable st) (writable st))
  else Throw StorageError.

(** ** The component's state

    The nine [useState] cells the engine uses, the [useMemo] cell, and the
    environment the component talks to: pending [setTimeout] callbacks in
    scheduling order, the store, the console and the random source. *)

Record Timeout := mkTimeout {
  delay : Z;
  firstId : Z;
  secondId : Z
}.

Record World := mkWorld {
  gameState : GameState;
  cards : list CardState;
  flippedCards : list Z;
  mismatchedCards : list Z;
  moves : Z;
  isChecking : bool;
  timeLeft : Z;
  playerName : string;
  highScores : list HighScore;
  memoShuffledCards : list CardState;
  timeouts : list Timeout;
  localStorage : Storage;
  console : list string;
  random : list Z
}.

Definition setGameState (v : GameState) (w : World) : World :=
  mkWorld v (cards w) (flippedCards w) (mismatchedCards w) (moves w)
    (isChecking w) (timeLeft w) (playerName w) (highScores w)
    (memoShuffledCards w) (timeouts w) (localStorage w) (console w) (random w).

Definition setCards (v : list CardState) (w : World) : World :=
  mkWorld (gameState w) v (flippedCards w) (mismatchedCards w) (moves w)
    (isChecking w) (timeLeft w) (playerName w) (highScores w)
    (memoShuffledCards w) (timeouts w) (localStorage w) (console w) (random w).

Definition setFlippedCards (v : list Z) (w : World) : World :=
  mkWorld (gameState w) (cards w) v (mismatchedCards w) (moves w)
    (isChecking w) (timeLeft w) (playerName w) (highScores w)
    (memoShuffledCards w) (timeouts w) (localStorage w) (console w) (random w).

Definition setMismatchedCards (v : list Z) (w : World) : World :=
  mkWorld (gameState w) (cards w) (flippedCards w) v (moves w)
    (isChecking w) (timeLeft w) (playerName w) (highScores w)
    (memoShuffledCards w) (timeouts w) (localStorage w) (console w) (random w).

Definition setMoves (v : Z) (w : World) : World :=
  mkWorld (gameState w) (cards w) (flippedCards w) (mismatchedCards w) v
    (isChecking w) (timeLeft w) (playerName w) (highScores w)
    (memoShuffledCards w) (timeouts w) (localStorage w) (console w) (random w).

Definition setIsChecking (v : bool) (w : World) : World :=
  mkWorld (gameState w) (cards w) (flippedCards w) (mismatchedCards w) (moves w)
    v (timeLeft w) (playerName w) (highScores w)
    (memoShuffledCards w) (timeouts w) (localStorage w) (console w) (random w).

Definition setTimeLeft (v : Z) (w : World) : World :=
  mkWorld (gameState w) (cards w) (flippedCards w) (mismatchedCards w) (moves w)
    (isChecking w) v (playerName w) (highScores w)
    (memoShuffledCards w) (timeouts w) (localStorage w) (console w) (random w).

Definition setPlayerName (v : string) (w : World) : World :=
  mkWorld (gameState w) (cards w) (flippedCards w) (mismatchedCards w) (moves w)
    (isChecking w) (timeLeft w) v (highScores w)
    (memoShuffledCards w) (timeouts w) (localStorage w) (console w) (random w).

Definition setHighScores (v : list HighScore) (w : World) : World :=
  mkWorld (gameState w) (cards w) (flippedCards w) (mismatchedCards w) (moves w)
    (isChecking w) (timeLeft w) (playerName w) v
    (memoShuffledCards w) (timeouts w) (localStorage w) (console w) (random w).

(** [setTimeout(callback, ms)]: the callback joins the queue; equal delays
    fire in scheduling order. *)
Definition setTimeout (t : Timeout) (w : World) : World :=
  mkWorld (gameState w) (cards w) (flippedCards w) (mismatchedCards w) (moves w)
    (isChecking w) (timeLeft w) (playerName w) (highScores w)
    (memoShuffledCards w) (timeouts w ++ [t]) (localStorage w) (console w) (random w).

Definition dropTimeout (w : World) : World :=
  mkWorld (gameState w) (cards w) (flippedCards w) (mismatchedCards w) (moves w)
    (isChecking w) (timeLeft w) (playerName w) (highScores w)
    (memoShuffledCards w) (tail (timeouts w)) (localStorage w) (console w) (random w).

Definition writeStorage (st : Storage) (w : World) : World :=
  mkWorld (gameState w) (cards w) (flippedCards w) (mismatchedCards w) (moves w)
    (isChecking w) (timeLeft w) (playerName w) (highScores w)
    (memoShuffledCards w) (timeouts w) st (console w) (random w).

Definition console_error (msg : string) (w : World) : World :=
  mkWorld (gameState w) (cards w) (flippedCards w) (mismatchedCards w) (moves w)
    (isChecking w) (timeLeft w) (playerName w) (highScores w)
    (memoShuffledCards w) (timeouts w) (localStorage w) (console w ++ [msg]) (random w).

(** [arr[index]]: [undefined] (here [None]) outside the array. *)
Definition at_ {A} (arr : list A) (index : Z) : option A :=
  if (index <? 0)%Z then None else arr !! Z.to_nat index.

(** ** Effects *)

(** Load effect (index.tsx 62-71), run once when the component mounts. *)
Definition loadHighScores (w : World) : World :=
  match getItem (localStorage w) with
  | Throw _ => console_error "Failed to load high scores:" w
  | Ok None => w
  | Ok (Some storedScores) =>
      if truthy storedScores then
        match JSON_parse storedScores with
        | Ok scores => setHighScores scores w
        | Throw _ => console_error "Failed to load high scores:" w
        end
      else w
  end.

(** Timer effect (index.tsx 87-96).  [r] is the render the effect closes
    over, [w] the state its setters act on.  The interval the effect starts
    is alive exactly while the rendered state is [playing] with time left;
    see [tick]. *)
Definition timerEffect (r w : World) : World :=
  if negb (bool_decide (gameState r = playing)) || (timeLeft r <=? 0)%Z then
    if (timeLeft r <=? 0)%Z && bool_decide (gameState r = playing)
    then setGameState lost w
    else w
  else w.

Definition withIsFlipped (v : bool) (card : CardState) : CardState :=
  mkCard (id card) (imageId card) (imageUrl card) v (isMatched card).

Definition withIsMatched (v : bool) (card : CardState) : CardState :=
  mkCard (id card) (imageId card) (imageUrl card) (isFlipped card) v.

Definition MISMATCH_DELAY : Z := 1000.

(** The callback handed to [setTimeout] (index.tsx 122-133); it closes over
    the two card ids only. *)
Definition mismatchCallback (t : Timeout) (w : World) : World :=
  setIsChecking false
    (setMismatchedCards []
       (setFlippedCards []
          (setCards
             (map (fun card =>
                     if (id card =? firstId t)%Z || (id card =? secondId t)%Z
                     then withIsFlipped false card
                     else card)
                  (cards w))
             w))).

(** Pair-check effect (index.tsx 98-135).  Besides the new state it reports
    whether [cards] and [flippedCards] received a new array, which is what
    makes effects run again.  Reading a property of [undefined] throws. *)
Definition pairCheckEffect (r w : World) : result (World * bool * bool) :=
  match flippedCards r with
  | [firstCardIndex; secondCardIndex] =>
      let w := setIsChecking true w in
      let firstCard := at_ (cards r) firstCardIndex in
      let secondCard := at_ (cards r) secondCardIndex in
      let w := setMoves (moves w + 1) w in
      match firstCard, secondCard with
      | Some firstCard, Some secondCard =>
          if (imageId firstCard =? imageId secondCard)%Z then
            let w :=
              setCards
                (map (fun card =>
                        if (id card =? id firstCard)%Z || (id card =? id secondCard)%Z
                        then withIsMatched true card
                        else card)
                     (cards w))
                w in
            let w := setFlippedCards [] w in
            let w := setIsChecking false w in
            Ok (w, true, true)
          else
            let w := setMismatchedCards [id firstCard; id secondCard] w in
            let w := setTimeout (mkTimeout MISMATCH_DELAY (id firstCard) (id secondCard)) w in
            Ok (w, false, false)
      | _, _ => Throw TypeError
      end
  | _ => Ok (w, false, false)
  end.

(** Win effect (index.tsx 137-147). *)
Definition winEffect (r w : World) : World :=
  if (0 <? length (cards r))%nat && forallb isMatched (cards r)
  then setGameState awaitingName w
  else w.

(** ** Rendering

    After a handler has run the component renders again and every effect
    whose dependencies changed runs, in source order, against that render;
    their updates are applied together and the cycle repeats.  [prev] is the
    previous render, [cur] the one being committed; [dc] and [df] say
    whether [cards] / [flippedCards] hold a new array. *)

Definition timerDue (prev cur : World) : bool :=
  negb (bool_decide (gameState prev = gameState cur))
  || negb (timeLeft prev =? timeLeft cur)%Z.

(** One round of effects against the render [r], acting on the state [w];
    [dt], [dc], [df] say which dependencies changed: the timer's, [cards],
    [flippedCards]. *)
Definition pass (r w : World) (dt dc df : bool) : result (World * bool * bool) :=
  let w1 := if dt then timerEffect r w else w in
  match (if dc || df then pairCheckEffect r w1 else Ok (w1, false, false)) with
  | Throw e => Throw e
  | Ok (w2, dc', df') =>
      let w3 := if dc then winEffect r w2 else w2 in
      Ok (w3, dc', df')
  end.

(** React gives up after a bounded number of nested updates. *)
Definition NESTED_UPDATE_LIMIT : nat := 50.

Fixpoint renderLoop (fuel : nat) (prev cur : World) (dc df : bool) : result World :=
  if timerDue prev cur || dc || df then
    match fuel with
    | O => Throw MaxUpdateDepth
    | S fuel' =>
        match pass cur cur (timerDue prev cur) dc df with
        | Throw e => Throw e
        | Ok (w, dc', df') => renderLoop fuel' cur w dc' df'
        end
    end
  else Ok cur.

(** ** Handlers *)

(** index.tsx 178-185 *)
Definition handleStartGame (w : World) : World :=
  let w := setCards (memoShuffledCards w) w in
  let w := setGameState playing w in
  let w := setMoves 0 w in
  let w := setFlippedCards [] w in
  let w := setTimeLeft GAME_DURATION w in
  setPlayerName "" w.

(** index.tsx 187-198 *)
Definition handleCardClick (index : Z) (w : World) : result (World * bool * bool) :=
  if isChecking w || (length (flippedCards w) =? 2)%nat then Ok (w, false, false)
  else
    match at_ (cards w) index with
    | None => Throw TypeError
    | Some card =>
        if isFlipped card || isMatched card then Ok (w, false, false)
        else
          let w :=
            setCards
              (imap (fun i card =>
                       if (Z.of_nat i =? index)%Z then withIsFlipped true card else card)
                    (cards w))
              w in
          let w := setFlippedCards (flippedCards w ++ [index]) w in
          Ok (w, true, true)
    end.

(** index.tsx 200-207 *)
Definition handleResetGame (w : World) : World :=
  let w := setGameState start w in
  let w := setCards [] w in
  let w := setFlippedCards [] w in
  let w := setMoves 0 w in
  let w := setIsChecking false w in
  setTimeLeft GAME_DURATION w.

(** index.tsx 209-233 *)
Definition handleNameSubmit (w : World) : World :=
  if bool_decide (trim (playerName w) = "") then w
  else
    let timeTaken := (GAME_DURATION - timeLeft w)%Z in
    let newScore := mkScore (trim (playerName w)) timeTaken (moves w) in
    let updated := updatedScores (highScores w) newScore in
    let w :=
      match setItem (JSON_stringify updated) (localStorage w) with
      | Ok st => setHighScores updated (writeStorage st w)
      | Throw _ => console_error "Failed to save high scores:" w
      end in
    setGameState won w.

(** The interval callback of the timer effect; without a live interval
    nothing fires. *)
Definition tick (w : World) : World :=
  if bool_decide (gameState w = playing) && (0 <? timeLeft w)%Z
  then setTimeLeft (timeLeft w - 1) w
  else w.

(** The oldest pending timeout fires. *)
Definition fireTimeout (w : World) : World * bool * bool :=
  match timeouts w with
  | [] => (w, false, false)
  | t :: _ => (mismatchCallback t (dropTimeout w), true, true)
  end.

(** ** Events *)

Inductive Event :=
  | StartGame
  | CardClick (index : Z)
  | ResetGame
  | NameInput (value : string)
  | NameSubmit
  | Tick
  | TimeoutFires.

#[global] Instance Event_eq_dec : EqDecision Event.
Proof. solve_decision. Defined.

Definition handle (e : Event) (w : World) : result (World * bool * bool) :=
  match e with
  | StartGame => Ok (handleStartGame w, true, true)
  | CardClick index => handleCardClick index w
  | ResetGame => Ok (handleResetGame w, true, true)
  | NameInput value => Ok (setPlayerName value w, false, false)
  | NameSubmit => Ok (handleNameSubmit w, false, false)
  | Tick => Ok (tick w, false, false)
  | TimeoutFires => Ok (fireTimeout w)
  end.

(** One event, start to finish: the handler, then rendering until no effect
    is due. *)
Definition dispatch (w : World) (e : Event) : result World :=
  match handle e w with
  | Throw err => Throw err
  | Ok (w', dc, df) => renderLoop NESTED_UPDATE_LIMIT w w' dc df
  end.

(** A sequence of events.  An exception that escapes a handler leaves the
    state as it was (no setter ran before the throw); one that escapes an
    effect takes the component down. *)
Fixpoint run (w : World) (events : list Event) : result World :=
  match events with
  | [] => Ok w
  | e :: events' =>
      match handle e w with
      | Throw _ => run w events'
      | Ok (w', dc, df) =>
          match renderLoop NESTED_UPDATE_LIMIT w w' dc df with
          | Throw err => Throw err
          | Ok w'' => run w'' events'
          end
      end
  end.

(** ** Mounting the component

    Initial [useState] values, the memo computed once, then the effects of
    the first render. *)
Definition initialWorld (deck : list CardState) (st : Storage) (draws : list Z) : World :=
  mkWorld start [] [] [] 0 false GAME_DURATION "" [] deck [] st [] draws.

Definition mountWith (sort : ArraySort) (pool : list string) (rows cols : Z)
    (st : Storage) (draws : list Z) : result World :=
  let (deck, draws') := buildDeck sort pool rows cols draws in
  let w := initialWorld deck st draws' in
  let w' := loadHighScores w in
  match pass w w' true true true with
  | Throw e => Throw e
  | Ok (w'', dc, df) => renderLoop NESTED_UPDATE_LIMIT w' w'' dc df
  end.

Definition mount (sort : ArraySort) : Storage -> list Z -> result World :=
  mountWith sort IMAGE_PATHS GRID_ROWS GRID_COLS.

(** ** Stored text that is no ledger

    [JSON.parse] returns [any], and the load effect hands the value to
    [setHighScores] as it is (index.tsx 66).  [World] types the
    [highScores] cell as the source declares it, [HighScore[]]; stored text
    that parses to a value of another kind puts that value into the cell.
    For [null], booleans and numbers this is modelled here, at the three
    places that read the cell: the load effect, [HighScoresTable] and the
    spread in [handleNameSubmit].  Strings, objects and arrays of other
    things are left out. *)

Inductive JsPrimitive := JsNull | JsBoolean (b : bool) | JsNumber (n : Z).

(** The text under the key, whatever it parses to. *)
Inductive UntypedText :=
  | Typed (text : StoredText)
  | JsonPrimitive (v : JsPrimitive).

(** What the [highScores] cell holds. *)
Inductive Cell :=
  | Scores (scores : list HighScore)
  | Other (v : JsPrimitive).

Definition JSON_parse_untyped (text : UntypedText) : result Cell :=
  match text with
  | Typed text =>
      match JSON_parse text with
      | Ok scores => Ok (Scores scores)
      | Throw e => Throw e
      end
  | JsonPrimitive v => Ok (Other v)
  end.

(** The texts [null], [false] and [0] are strings that are not empty. *)
Definition truthy_untyped (text : UntypedText) : bool :=
  match text with
  | Typed text => truthy text
  | JsonPrimitive _ => true
  end.

(** The load effect (index.tsx 62-71) on the initial, empty cell and an
    empty console: what it leaves in the cell and on the console. *)
Definition loadCell (readable : bool) (stored : option UntypedText)
  : Cell * list string :=
  if readable then
    match stored with
    | None => (Scores [], [])
    | Some storedScores =>
        if truthy_untyped storedScores then
          match JSON_parse_untyped storedScores with
          | Ok v => (v, [])
          | Throw _ => (Scores [], ["Failed to load high scores:"])
          end
        else (Scores [], [])
    end
  else (Scores [], ["Failed to load high scores:"]).

(** [HighScoresTable] (index.tsx 235-252): the line that there are no
    scores yet, or one row per score with rank, name, time and moves.
    [scores.length] throws when [scores] is [null]; on a boolean or a
    number it is [undefined], and [undefined > 0] is false. *)
Inductive Table :=
  | NoScoresYet
  | Rows (rows : list (Z * string * string * Z)).

Definition HighScoresTable (scores : Cell) : result Table :=
  match scores with
  | Other JsNull => Throw TypeError
  | Other _ => Ok NoScoresYet
  | Scores scores =>
      if (0 <? length scores)%nat
      then Ok (Rows (imap (fun index score =>
                             (Z.of_nat index + 1, name score,
                              formatTime (time score), scoreMoves score)%Z)
                          scores))
      else Ok NoScoresYet
  end.

(** What [App] renders of the cell (index.tsx 303, 356): the start screen
    and the modal of phase [won] show the table; an exception thrown while
    rendering takes the component down. *)
Definition renderScores (g : GameState) (scores : Cell) : result (option Table) :=
  match g with
  | start | won =>
      match HighScoresTable scores with
      | Ok table => Ok (Some table)
      | Throw e => Throw e
      end
  | _ => Ok None
  end.

(** [[...highScores, newScore]] (index.tsx 216), which [handleNameSubmit]
    evaluates before its [try]: spreading needs an iterable. *)
Definition spreadScores (highScores : Cell) (newScore : HighScore)
  : result (list HighScore) :=
  match highScores with
  | Scores scores => Ok (scores ++ [newScore])
  | Other _ => Throw TypeError
  end.

(** ** Vocabulary of the statements *)

(** The ledger order: less time first, then fewer moves. *)
Definition scoreLe (a b : HighScore) : Prop :=
  (time a < time b)%Z \/ (time a = time b /\ (scoreMoves a <= scoreMoves b)%Z).

(** Where a stable sort puts an element that arrived last: behind every
    element that is not worse. *)
Fixpoint insertAfter {A} (cmp : A -> A -> Z) (x : A) (l : list A) : list A :=
  match l with
  | [] => [x]
  | y :: l' => if (cmp x y <? 0)%Z then x :: y :: l' else y :: insertAfter cmp x l'
  end.

(** The ledger after a sequence of successful records. *)
Definition recordAll (ledger : list HighScore) (entries : list HighScore)
  : list HighScore :=
  fold_left updatedScores entries ledger.

(** What every reachable state satisfies: card ids are positions, in the
    deck on the table and in the memoised one; the memoised deck is face
    down; the indices in [flippedCards] point at unmatched cards, and there
    are at most two of them. *)
Definition idsAreIndices (cs : list CardState) : Prop :=
  forall (i : nat) (c : CardState), cs !! i = Some c -> id c = Z.of_nat i.

Definition faceDown (c : CardState) : Prop :=
  isFlipped c = false /\ isMatched c = false.

Record Inv (w : World) : Prop := mkInv {
  inv_ids : idsAreIndices (cards w);
  inv_memo_ids : idsAreIndices (memoShuffledCards w);
  inv_memo_fresh : Forall faceDown (memoShuffledCards w);
  inv_flipped :
    Forall (fun k => exists c, at_ (cards w) k = Some c /\ isMatched c = false)
           (flippedCards w);
  inv_len : (length (flippedCards w) <= 2)%nat
}.

(** Events that stay within the running session: everything but the two
    handlers that replace the deck on the table. *)
Definition inSession (e : Event) : bool :=
  match e with
  | StartGame | ResetGame => false
  | _ => true
  end.

Definition matchedAt (i : Z) (w : World) : Prop :=
  exists c, at_ (cards w) i = Some c /\ isMatched c = true.

(** [w'] differs from [w] in the phase at most. *)
Definition phaseOnly (w w' : World) : Prop :=
  w' = setGameState (gameState w') w.

(** What can happen while a mismatch waits for its timeout: clicks and
    ticks of the countdown. *)
Definition waiting (e : Event) : bool :=
  match e with
  | CardClick _ | Tick => true
  | _ => false
  end.

(** ** Concrete runs used below *)

Definition emptyStore : Storage := mkStorage None true true.
Definition fullStore : Storage := mkStorage None true false.
Definition someDraws : list Z :=
  flat_map (fun k => [(k * 2 ^ 45 * 37) mod 2 ^ 53;
                      (2 ^ 53 - 1 - k * 2 ^ 44 * 101) mod 2 ^ 53])%Z
           (map Z.of_nat (seq 0 150)).

Definition seededStore : Storage :=
  mkStorage (Some (JsonScores [mkScore "Eva" 50 12])) true true.

Definition mountedFrom (st : Storage) : World :=
  match mount insertionSort st someDraws with
  | Ok w => w
  | Throw _ => initialWorld [] st []
  end.

Definition mounted : World := mountedFrom emptyStore.

Definition after (events : list Event) (w : World) : World :=
  match run w events with
  | Ok w' => w'
  | Throw _ => w
  end.

(** The entry a submission made in state [w] carries; none when the name
    is blank. *)
Definition submission (w : World) : list HighScore :=
  if bool_decide (trim (playerName w) = "") then []
  else [mkScore (trim (playerName w)) (GAME_DURATION - timeLeft w) (moves w)].

(** The entries submitted in the course of a run, in order. *)
Fixpoint submitted (w : World) (events : list Event) : list HighScore :=
  match events with
  | [] => []
  | e :: events' =>
      (if bool_decide (e = NameSubmit) then submission w else [])
      ++ submitted (after [e] w) events'
  end.

(** A store that can be read but not written, with one score in it. *)
Definition readOnlyStore : Storage :=
  mkStorage (Some (JsonScores [mkScore "Eva" 50 12])) true false.

(** A store whose ledger is out of order. *)
Definition unorderedStore : Storage :=
  mkStorage (Some (JsonScores [mkScore "Eva" 50 12; mkScore "Ana" 42 11])) true true.

(** The example deck pairs up as 0-11, 1-13, 2-12, 3-14, 4-16, 5-17, 6-18,
    7-15, 8-19, 9-10. *)
Definition winningClicks : list Event :=
  map CardClick [0; 11; 1; 13; 2; 12; 3; 14; 4; 16; 5; 17; 6; 18; 7; 15; 8; 19; 9; 10]%Z.

(** Two worlds with the same ledger, in memory and in the store, the same
    memoised deck and the same random source. *)
Definition sameLedger (w w' : World) : Prop :=
  highScores w' = highScores w /\ localStorage w' = localStorage w
  /\ memoShuffledCards w' = memoShuffledCards w /\ random w' = random w.

Definition smallPool : list string := ["/images/a.png"; "/images/b.png"; "/images/c.png"].

(** Two games won in a row, the second after three seconds. *)
Definition twoWins : list Event :=
  StartGame :: winningClicks ++ [NameInput "Ana"; NameSubmit; ResetGame]
  ++ StartGame :: repeat Tick 3 ++ winningClicks ++ [NameInput " Bo"; NameSubmit].

(** * Properties *)

(** ** The random source *)

Lemma insertM_permutes {A} (cmp : A -> A -> Rand Z) (x : A) (l : list A) (s : list Z) :
  Permutation (x :: l) (fst (insertM cmp x l s)).
Proof.
  revert s. induction l as [|y l IH]; intros s; simpl.
  - reflexivity.
  - unfold bind. destruct (cmp x y s) as [c s1].
    destruct (c <? 0)%Z; simpl; [reflexivity|].
    specialize (IH s1). destruct (insertM cmp x l s1) as [r s2]; simpl in *.
    rewrite perm_swap. now constructor.
Qed.

Lemma insertionSort_permutes (A : Type) (cmp : A -> A -> Rand Z) (l : list A) (s : list Z) :
  Permutation l (fst (insertionSort A cmp l s)).
Proof.
  revert s. induction l as [|x l IH]; intros s; simpl.
  - reflexivity.
  - unfold bind. specialize (IH s).
    destruct (insertionSort A cmp l s) as [r s1]; simpl in *.
    etransitivity; [|apply insertM_permutes]. now constructor.
Qed.

(** ** Deck generator *)

Lemma count_occ_range (n : nat) (k : Z) :
  count_occ Z.eq_dec (map Z.of_nat (seq 0 n)) k
  = if bool_decide (0 <= k < Z.of_nat n)%Z then 1%nat else 0%nat.
Proof.
  induction n as [|n IH].
  - simpl. case_bool_decide; [lia|reflexivity].
  - rewrite seq_S, map_app, count_occ_app, IH. simpl.
    destruct (Z.eq_dec (Z.of_nat n) k); repeat case_bool_decide; lia.
Qed.

Lemma cardPairs_imageIds (pool : list string) (rows cols : Z) :
  map faceImageId (cardPairs pool rows cols)
  = map Z.of_nat (seq 0 (length (cardPairs pool rows cols))).
Proof.
  unfold cardPairs. rewrite length_imap.
  change (map faceImageId) with (fmap (M:=list) faceImageId).
  rewrite fmap_imap. apply (imap_seq_0 _ Z.of_nat).
Qed.

Lemma cardPairs_face (pool : list string) (rows cols : Z) :
  Forall (fun f => faceIsFlipped f = false /\ faceIsMatched f = false
                   /\ pool !! Z.to_nat (faceImageId f) = Some (faceImageUrl f))
         (cardPairs pool rows cols).
Proof.
  apply Forall_forall. intros f Hin.
  unfold cardPairs in Hin. apply elem_of_lookup_imap in Hin.
  destruct Hin as (i & path & -> & Hlk). simpl. repeat split.
  rewrite Nat2Z.id. unfold slice0 in Hlk.
  destruct (_ <? 0)%Z; apply lookup_take_Some in Hlk; tauto.
Qed.

Lemma imap_withId_ids (l : list CardFace) :
  map id (imap withId l) = map Z.of_nat (seq 0 (length l)).
Proof.
  change (map id) with (fmap (M:=list) id).
  rewrite fmap_imap. apply (imap_seq_0 _ Z.of_nat).
Qed.

Lemma imap_withId_imageIds (l : list CardFace) :
  map imageId (imap withId l) = map faceImageId l.
Proof.
  change (map imageId) with (fmap (M:=list) imageId).
  rewrite fmap_imap. apply imap_const.
Qed.

Section DeckGenerator.

(** The engine's sorting algorithm is not fixed by the language; all that
    is used of it is that it returns the elements it was given. *)
Variable sort : ArraySort.
Hypothesis sort_permutes :
  forall (A : Type) (cmp : A -> A -> Rand Z) (l : list A) (s : list Z),
    Permutation l (fst (sort A cmp l s)).

Lemma buildDeck_spec (pool : list string) (rows cols : Z) (draws : list Z) :
  let m := length (slice0 (requiredImagesCount rows cols) pool) in
  let deck := fst (buildDeck sort pool rows cols draws) in
  length deck = (2 * m)%nat
  /\ (forall k, count_occ Z.eq_dec (map imageId deck) k
                = if bool_decide (0 <= k < Z.of_nat m)%Z then 2%nat else 0%nat)
  /\ Forall (fun c => isFlipped c = false /\ isMatched c = false
                      /\ pool !! Z.to_nat (imageId c) = Some (imageUrl c)) deck
  /\ map id deck = map Z.of_nat (seq 0 (length deck)).
Proof.
  intros m deck. subst deck. unfold buildDeck, bind.
  pose proof (sort_permutes CardFace randomComparator
                (cardPairs pool rows cols ++ cardPairs pool rows cols) draws) as Hperm.
  destruct (sort CardFace randomComparator _ draws) as [sorted draws']. simpl in *.
  assert (Hm : length (cardPairs pool rows cols) = m)
    by (unfold cardPairs; now rewrite length_imap).
  assert (Hlen : length sorted = (2 * m)%nat).
  { rewrite <- (Permutation_length Hperm), length_app, Hm. lia. }
  split; [now rewrite length_imap|]. split; [|split].
  - intros k. rewrite imap_withId_imageIds.
    rewrite <- (proj1 (Permutation_count_occ Z.eq_dec _ _)
                  (Permutation_map faceImageId Hperm) k).
    rewrite map_app, count_occ_app, cardPairs_imageIds, Hm, count_occ_range.
    case_bool_decide; reflexivity.
  - apply Forall_forall. intros c Hin.
    apply elem_of_lookup_imap in Hin. destruct Hin as (i & f & -> & Hlk).
    assert (Hf : f ∈ cardPairs pool rows cols).
    { apply list_elem_of_lookup_2 in Hlk. rewrite <- Hperm in Hlk.
      apply elem_of_app in Hlk. tauto. }
    pose proof (cardPairs_face pool rows cols) as Hall.
    rewrite Forall_forall in Hall. apply Hall in Hf. simpl. exact Hf.
  - rewrite length_imap. apply imap_withId_ids.
Qed.

(** C2. A deck built for an even grid of [rows * cols] cells from a pool
    of at least [rows * cols / 2] images has [rows * cols] cards; the
    image ids on it are exactly [0 .. rows*cols/2 - 1], each on exactly
    two cards; every card starts face down and unmatched and shows the
    pool image of its image id; and the card ids are [0, 1, 2, ...] in
    deck order, assigned after the shuffle. *)
Theorem deck_is_paired_and_numbered
    (pool : list string) (rows cols : Z) (draws : list Z) :
  (0 <= rows * cols)%Z ->
  Z.even (rows * cols) = true ->
  (rows * cols / 2 <= Z.of_nat (length pool))%Z ->
  let pairsNeeded := (rows * cols / 2)%Z in
  let deck := fst (buildDeck sort pool rows cols draws) in
  Z.of_nat (length deck) = (rows * cols)%Z
  /\ (forall k, count_occ Z.eq_dec (map imageId deck) k
                = if bool_decide (0 <= k < pairsNeeded)%Z then 2%nat else 0%nat)
  /\ Forall (fun c => isFlipped c = false /\ isMatched c = false
                      /\ pool !! Z.to_nat (imageId c) = Some (imageUrl c)) deck
  /\ map id deck = map Z.of_nat (seq 0 (length deck)).
Proof.
  intros Hpos Heven Hpool pairsNeeded deck.
  destruct (buildDeck_spec pool rows cols draws) as (Hlen & Hcount & Hall & Hids).
  fold deck in Hlen, Hcount, Hall, Hids.
  assert (Hq : requiredImagesCount rows cols = pairsNeeded).
  { unfold requiredImagesCount, pairsNeeded. now rewrite Z.quot_div_nonneg by lia. }
  assert (Hm : Z.of_nat (length (slice0 (requiredImagesCount rows cols) pool))
               = pairsNeeded).
  { rewrite Hq. unfold slice0.
    assert (0 <= pairsNeeded)%Z by (apply Z.div_pos; lia).
    destruct (pairsNeeded <? 0)%Z eqn:E; [lia|].
    rewrite length_take. lia. }
  repeat split; try assumption.
  - rewrite Hlen, Nat2Z.inj_mul, Hm. unfold pairsNeeded.
    apply Zeven_bool_iff, Zeven_div2 in Heven. rewrite Z.div2_div in Heven. lia.
  - intros k. rewrite Hcount, Hm. reflexivity.
Qed.

End DeckGenerator.

(** The configured deck: 5 x 4 cells, ten images. *)
Lemma deck_is_paired_and_numbered_witness :
  let deck := fst (shuffledCards insertionSort [7; 2 ^ 52; 1; 2 ^ 53 - 1]%Z) in
  Z.of_nat (length deck) = 20%Z
  /\ (forall k, count_occ Z.eq_dec (map imageId deck) k
                = if bool_decide (0 <= k < 10)%Z then 2%nat else 0%nat)
  /\ Forall (fun c => isFlipped c = false /\ isMatched c = false
                      /\ IMAGE_PATHS !! Z.to_nat (imageId c) = Some (imageUrl c)) deck
  /\ map id deck = map Z.of_nat (seq 0 (length deck)).
Proof.
  apply (deck_is_paired_and_numbered insertionSort insertionSort_permutes
           IMAGE_PATHS GRID_ROWS GRID_COLS [7; 2 ^ 52; 1; 2 ^ 53 - 1]%Z).
  - vm_compute. discriminate.
  - reflexivity.
  - vm_compute. discriminate.
Defined.

(** ** High-score ledger *)

Lemma compareScores_le (a b : HighScore) :
  (compareScores a b <=? 0)%Z = true <-> scoreLe a b.
Proof.
  unfold compareScores, scoreLe.
  destruct (time a =? time b)%Z eqn:E; simpl; rewrite Z.leb_le; lia.
Qed.

Lemma compareScores_lt (a b : HighScore) :
  (compareScores a b <? 0)%Z = true <-> ~ scoreLe b a.
Proof.
  unfold compareScores, scoreLe.
  destruct (time a =? time b)%Z eqn:E; simpl; rewrite Z.ltb_lt; lia.
Qed.

#[local] Instance scoreLe_trans : Transitive scoreLe.
Proof. unfold scoreLe. intros a b c. lia. Qed.

Lemma scoreLe_total (a b : HighScore) : scoreLe a b \/ scoreLe b a.
Proof. unfold scoreLe. lia. Qed.

Lemma compareScores_le_false (a b : HighScore) :
  (compareScores a b <=? 0)%Z = false <-> ~ scoreLe a b.
Proof. rewrite <- compareScores_le. now destruct (_ <=? 0)%Z. Qed.

Lemma compareScores_lt_false (a b : HighScore) :
  (compareScores a b <? 0)%Z = false <-> scoreLe b a.
Proof.
  unfold compareScores, scoreLe.
  destruct (time a =? time b)%Z eqn:E; simpl; rewrite Z.ltb_ge; lia.
Qed.

Ltac score_cases :=
  repeat match goal with
    | |- context [(compareScores ?a ?b <=? 0)%Z] =>
        let E := fresh "E" in
        destruct (compareScores a b <=? 0)%Z eqn:E;
        [apply compareScores_le in E | apply compareScores_le_false in E]
    | |- context [(compareScores ?a ?b <? 0)%Z] =>
        let E := fresh "E" in
        destruct (compareScores a b <? 0)%Z eqn:E;
        [apply compareScores_lt in E | apply compareScores_lt_false in E]
    end.

Lemma insertBy_permutes (x : HighScore) (l : list HighScore) :
  Permutation (x :: l) (insertBy compareScores x l).
Proof.
  induction l as [|y l IH]; simpl; [reflexivity|].
  destruct (_ <=? 0)%Z; [reflexivity|].
  rewrite perm_swap. now constructor.
Qed.

Lemma sortBy_permutes (l : list HighScore) :
  Permutation l (sortBy compareScores l).
Proof.
  induction l as [|x l IH]; simpl; [reflexivity|].
  etransitivity; [|apply insertBy_permutes]. now constructor.
Qed.

Lemma insertBy_sorted (x : HighScore) (l : list HighScore) :
  StronglySorted scoreLe l -> StronglySorted scoreLe (insertBy compareScores x l).
Proof.
  induction 1 as [|y l Hs IH Hall]; simpl.
  - repeat constructor.
  - score_cases.
    + constructor; [now constructor|]. constructor; [assumption|].
      eapply Forall_impl; [exact Hall|]. intros z Hz. now transitivity y.
    + constructor; [assumption|].
      rewrite <- (insertBy_permutes x l). constructor; [|assumption].
      destruct (scoreLe_total x y); tauto.
Qed.

Lemma sortBy_sorted (l : list HighScore) :
  StronglySorted scoreLe (sortBy compareScores l).
Proof.
  induction l as [|x l IH]; simpl; [constructor|]. now apply insertBy_sorted.
Qed.

Lemma sortBy_of_sorted (l : list HighScore) :
  StronglySorted scoreLe l -> sortBy compareScores l = l.
Proof.
  induction 1 as [|x l Hs IH Hall]; simpl; [reflexivity|].
  rewrite IH. destruct Hall as [|y l Hxy _]; simpl; [reflexivity|].
  apply compareScores_le in Hxy. now rewrite Hxy.
Qed.

(** Insertion from the left and arrival from the right commute. *)
Lemma insertBy_insertAfter (a x : HighScore) (l : list HighScore) :
  insertBy compareScores a (insertAfter compareScores x l)
  = insertAfter compareScores x (insertBy compareScores a l).
Proof.
  induction l as [|y l IH]; simpl.
  - score_cases; simpl; score_cases; try reflexivity; unfold scoreLe in *; lia.
  - score_cases; simpl; score_cases; simpl; score_cases;
      try reflexivity; try (unfold scoreLe in *; lia).
    now rewrite IH.
Qed.

Lemma sortBy_snoc (l : list HighScore) (x : HighScore) :
  sortBy compareScores (l ++ [x]) = insertAfter compareScores x (sortBy compareScores l).
Proof.
  induction l as [|a l IH]; simpl; [reflexivity|].
  now rewrite IH, insertBy_insertAfter.
Qed.

(** The first [k] places after an arrival depend on the first [k] places
    before it only. *)
Lemma take_insertAfter_take {A} (cmp : A -> A -> Z) (x : A) (k : nat) (l : list A) :
  take k (insertAfter cmp x (take k l)) = take k (insertAfter cmp x l).
Proof.
  revert k. induction l as [|y l IH]; intros [|k]; simpl; try reflexivity.
  destruct (cmp x y <? 0)%Z; simpl.
  - f_equal. destruct k as [|k]; simpl; [reflexivity|].
    f_equal. rewrite take_take. f_equal. lia.
  - now rewrite IH.
Qed.

Lemma take_sorted (k : nat) (l : list HighScore) :
  StronglySorted scoreLe l -> StronglySorted scoreLe (take k l).
Proof.
  intros H. rewrite <- (take_drop k l) in H. now apply StronglySorted_app_1_l in H.
Qed.

Lemma updatedScores_take (l : list HighScore) (x : HighScore) :
  updatedScores (take 5 (sortBy compareScores l)) x
  = take 5 (sortBy compareScores (l ++ [x])).
Proof.
  unfold updatedScores. change (slice0 5) with (@take HighScore 5).
  rewrite !sortBy_snoc, sortBy_of_sorted by apply take_sorted, sortBy_sorted.
  apply take_insertAfter_take.
Qed.

Lemma recordAll_from (ledger entries : list HighScore) :
  entries <> [] ->
  recordAll ledger entries = take 5 (sortBy compareScores (ledger ++ entries)).
Proof.
  unfold recordAll. induction entries as [|x entries IH] using rev_ind; [congruence|].
  intros _. rewrite fold_left_app. simpl.
  destruct entries as [|e entries].
  - reflexivity.
  - rewrite IH by discriminate. rewrite updatedScores_take.
    now rewrite <- app_assoc.
Qed.

Lemma recordAll_empty (entries : list HighScore) :
  recordAll [] entries = take 5 (sortBy compareScores entries).
Proof.
  destruct entries as [|e entries]; [reflexivity|].
  now rewrite recordAll_from.
Qed.

(** Whatever ledger was loaded, one record is enough to put it in order. *)
Lemma recordAll_sorted_bounded (ledger entries : list HighScore) :
  entries <> [] ->
  StronglySorted scoreLe (recordAll ledger entries)
  /\ (length (recordAll ledger entries) <= 5)%nat.
Proof.
  intros H. rewrite recordAll_from by assumption. split.
  - apply take_sorted, sortBy_sorted.
  - rewrite length_take. lia.
Qed.

(** The first five of a stable sort are sorted and at most five, and what
    is left out is no better than anything kept; nothing is left out while
    fewer than five are kept. *)
Lemma first_five_are_best (all : list HighScore) :
  let ledger := take 5 (sortBy compareScores all) in
  StronglySorted scoreLe ledger
  /\ (length ledger <= 5)%nat
  /\ exists dropped,
       Permutation all (ledger ++ dropped)
       /\ (forall kept d, kept ∈ ledger -> d ∈ dropped -> scoreLe kept d)
       /\ (dropped <> [] -> length ledger = 5%nat).
Proof.
  intros ledger. subst ledger.
  pose proof (sortBy_sorted all) as Hsorted.
  pose proof (sortBy_permutes all) as Hperm.
  set (sorted := sortBy compareScores all) in *.
  split; [now apply take_sorted|].
  split; [rewrite length_take; lia|].
  exists (drop 5 sorted). rewrite take_drop. split; [assumption|]. split.
  - intros kept d Hk Hd. rewrite <- (take_drop 5 sorted) in Hsorted.
    now apply (StronglySorted_app_1_elem_of _ _ _ _ _ Hsorted).
  - intros Hne. rewrite length_take.
    destruct (decide (length sorted <= 5)%nat) as [Hle|Hgt]; [|lia].
    now rewrite drop_ge in Hne.
Qed.

(** Records on a ledger in order, or at least one record on any ledger. *)
Lemma recordAll_first_five (ledger entries : list HighScore) :
  (StronglySorted scoreLe ledger /\ (length ledger <= 5)%nat) \/ entries <> [] ->
  recordAll ledger entries = take 5 (sortBy compareScores (ledger ++ entries)).
Proof.
  destruct entries as [|e entries].
  - intros [[Hs Hl]|Hne]; [|congruence].
    rewrite app_nil_r, sortBy_of_sorted by assumption. simpl.
    symmetry. now apply take_ge.
  - intros _. now apply recordAll_from.
Qed.

(** ** Rendering settles *)

Arguments renderLoop : simpl never.

Lemma renderLoop_S (n : nat) (prev cur : World) (dc df : bool) :
  renderLoop (S n) prev cur dc df
  = if timerDue prev cur || dc || df then
      match pass cur cur (timerDue prev cur) dc df with
      | Throw e => Throw e
      | Ok (w, dc', df') => renderLoop n cur w dc' df'
      end
    else Ok cur.
Proof. reflexivity. Qed.

Lemma renderLoop_quiet (n : nat) (prev cur : World) :
  timerDue prev cur = false -> renderLoop n prev cur false false = Ok cur.
Proof. intros H. destruct n; unfold renderLoop; now rewrite H. Qed.

Lemma timerDue_same (prev cur : World) :
  gameState prev = gameState cur -> timeLeft prev = timeLeft cur ->
  timerDue prev cur = false.
Proof.
  intros Hg Ht. unfold timerDue. rewrite Hg, Ht, Z.eqb_refl.
  now rewrite bool_decide_eq_true_2.
Qed.

Lemma timerEffect_cases (r w : World) :
  timerEffect r w = w
  \/ (gameState r = playing /\ timerEffect r w = setGameState lost w).
Proof.
  unfold timerEffect. case_bool_decide as Hg; simpl.
  - destruct (timeLeft r <=? 0)%Z; simpl; [right; now split|now left].
  - rewrite andb_false_r. now left.
Qed.

Lemma timerEffect_idle (r w : World) :
  gameState r <> playing -> timerEffect r w = w.
Proof.
  intros H. unfold timerEffect. rewrite (bool_decide_eq_false_2 _ H). simpl.
  now rewrite andb_false_r.
Qed.

(** With no new array around, only the timer effect can still run, and it
    is done after two rounds. *)
Lemma renderLoop_timer (n : nat) (prev cur : World) :
  (2 <= n)%nat ->
  renderLoop n prev cur false false
  = Ok (if timerDue prev cur then timerEffect cur cur else cur).
Proof.
  intros Hn. destruct n as [|[|n]]; try lia.
  destruct (timerDue prev cur) eqn:Hdue; [|now apply renderLoop_quiet].
  rewrite renderLoop_S, Hdue. simpl. unfold pass. simpl.
  destruct (timerEffect_cases cur cur) as [-> | [Hplay ->]].
  - now apply renderLoop_quiet, timerDue_same.
  - rewrite renderLoop_S. unfold pass. simpl.
    rewrite timerEffect_idle by (simpl; discriminate).
    destruct (timerDue cur (setGameState lost cur)); simpl; [|reflexivity].
    now apply renderLoop_quiet, timerDue_same.
Qed.

Lemma pairCheckEffect_idle (r w : World) :
  length (flippedCards r) <> 2%nat -> pairCheckEffect r w = Ok (w, false, false).
Proof.
  unfold pairCheckEffect. destruct (flippedCards r) as [|a [|b [|c l]]]; simpl; congruence.
Qed.

Lemma pass_idle (cur : World) (dt dc df : bool) :
  length (flippedCards cur) <> 2%nat ->
  exists w, pass cur cur dt dc df = Ok (w, false, false).
Proof.
  intros H. unfold pass.
  destruct (dc || df); [rewrite pairCheckEffect_idle|]; eauto.
Qed.

Lemma renderLoop_idle (n : nat) (prev cur : World) (dc df : bool) :
  (3 <= n)%nat -> length (flippedCards cur) <> 2%nat ->
  exists w, renderLoop n prev cur dc df = Ok w.
Proof.
  intros Hn Hlen. destruct n as [|n]; [lia|]. rewrite renderLoop_S.
  destruct (_ || _ || _); [|eauto].
  destruct (pass_idle cur (timerDue prev cur) dc df Hlen) as [w ->].
  rewrite renderLoop_timer by lia. eauto.
Qed.

(** The pair-check, when it does not throw, either leaves no new array
    behind or has emptied [flippedCards]. *)
Lemma pairCheckEffect_flags (r w w' : World) (dc' df' : bool) :
  pairCheckEffect r w = Ok (w', dc', df') ->
  (dc' = false /\ df' = false) \/ flippedCards w' = [].
Proof.
  unfold pairCheckEffect.
  destruct (flippedCards r) as [|a [|b [|c l]]]; try (intros [= <- <- <-]; now left).
  destruct (at_ (cards r) a) as [ca|]; [|discriminate].
  destruct (at_ (cards r) b) as [cb|]; [|discriminate].
  destruct (imageId ca =? imageId cb)%Z; intros [= <- <- <-]; [now right|now left].
Qed.

Lemma pass_flags (cur w' : World) (dt dc df dc' df' : bool) :
  pass cur cur dt dc df = Ok (w', dc', df') ->
  (dc' = false /\ df' = false) \/ flippedCards w' = [].
Proof.
  unfold pass.
  destruct (dc || df).
  - destruct (pairCheckEffect cur _) as [[[w2 c2] f2]|e] eqn:E; [|discriminate].
    intros [= <- <- <-]. apply pairCheckEffect_flags in E.
    destruct E as [E|E]; [now left|right].
    destruct dc; [|assumption]. unfold winEffect.
    destruct (_ && _); assumption.
  - intros [= <- <- <-]. now left.
Qed.

(** Rendering never runs into the update limit: four rounds are enough. *)
Lemma renderLoop_settles (n : nat) (prev cur : World) (dc df : bool) :
  (4 <= n)%nat ->
  (exists w, renderLoop n prev cur dc df = Ok w)
  \/ (exists e, pass cur cur (timerDue prev cur) dc df = Throw e
                /\ renderLoop n prev cur dc df = Throw e).
Proof.
  intros Hn. destruct n as [|n]; [lia|]. rewrite renderLoop_S.
  destruct (_ || _ || _); [|left; eauto].
  destruct (pass cur cur _ dc df) as [[[w dc'] df']|e] eqn:E; [|right; eauto].
  left. destruct (pass_flags _ _ _ _ _ _ _ E) as [[-> ->]|Hnil].
  - rewrite renderLoop_timer by lia. eauto.
  - apply renderLoop_idle; [lia|]. now rewrite Hnil.
Qed.

(** What every round of effects preserves, rendering preserves. *)
Lemma renderLoop_preserves (P : World -> Prop) :
  (forall cur dt dc df w dc' df',
      P cur -> pass cur cur dt dc df = Ok (w, dc', df') -> P w) ->
  forall n prev cur dc df w,
    P cur -> renderLoop n prev cur dc df = Ok w -> P w.
Proof.
  intros Hpass. induction n as [|n IH]; intros prev cur dc df w HP.
  - unfold renderLoop. destruct (_ || _ || _); [discriminate|]. now intros [= <-].
  - rewrite renderLoop_S. destruct (_ || _ || _); [|now intros [= <-]].
    destruct (pass cur cur _ dc df) as [[[w1 dc'] df']|e] eqn:E; [|discriminate].
    apply IH. eapply Hpass; eassumption.
Qed.

(** ** The invariant *)

Lemma Inv_ext (w w' : World) :
  cards w' = cards w -> flippedCards w' = flippedCards w ->
  memoShuffledCards w' = memoShuffledCards w -> Inv w -> Inv w'.
Proof.
  intros Hc Hf Hm [H1 H2 H3 H4 H5]. constructor; rewrite ?Hc, ?Hf, ?Hm; assumption.
Qed.

Lemma idsAreIndices_map (f : CardState -> CardState) (l : list CardState) :
  (forall c, id (f c) = id c) -> idsAreIndices l -> idsAreIndices (map f l).
Proof.
  intros Hf Hl i c Hlk. change (map f l) with (f <$> l) in Hlk.
  rewrite list_lookup_fmap in Hlk. destruct (l !! i) as [c0|] eqn:E; [|discriminate].
  injection Hlk as <-. rewrite Hf. now apply Hl.
Qed.

Lemma idsAreIndices_imap (f : nat -> CardState -> CardState) (l : list CardState) :
  (forall i c, id (f i c) = id c) -> idsAreIndices l -> idsAreIndices (imap f l).
Proof.
  intros Hf Hl i c Hlk. rewrite list_lookup_imap in Hlk.
  destruct (l !! i) as [c0|] eqn:E; [|discriminate].
  injection Hlk as <-. rewrite Hf. now apply Hl.
Qed.

Lemma at_map {A B} (f : A -> B) (l : list A) (k : Z) :
  at_ (map f l) k = f <$> at_ l k.
Proof.
  unfold at_. destruct (k <? 0)%Z; [reflexivity|].
  change (map f l) with (f <$> l). apply list_lookup_fmap.
Qed.

Lemma at_imap {A B} (f : nat -> A -> B) (l : list A) (k : Z) :
  at_ (imap f l) k = f (Z.to_nat k) <$> at_ l k.
Proof.
  unfold at_. destruct (k <? 0)%Z; [reflexivity|]. apply list_lookup_imap.
Qed.

Lemma at_Some_bounds {A} (l : list A) (k : Z) (a : A) :
  at_ l k = Some a -> (0 <= k < Z.of_nat (length l))%Z /\ l !! Z.to_nat k = Some a.
Proof.
  unfold at_. destruct (k <? 0)%Z eqn:E; [discriminate|]. intros H.
  split; [|assumption]. apply lookup_lt_Some in H. lia.
Qed.

Lemma pairCheckEffect_Inv (r w : World) :
  cards w = cards r -> flippedCards w = flippedCards r ->
  memoShuffledCards w = memoShuffledCards r -> Inv r ->
  exists w' dc' df', pairCheckEffect r w = Ok (w', dc', df') /\ Inv w'.
Proof.
  intros Hc Hf Hm HI. pose proof (Inv_ext r w Hc Hf Hm HI) as HIw.
  unfold pairCheckEffect.
  destruct (flippedCards r) as [|a [|b [|c l]]] eqn:Efl;
    try solve [do 3 eexists; eauto].
  destruct HI as [H1 H2 H3 H4 H5]. rewrite Efl in H4.
  apply Forall_cons in H4 as [(ca & Ha & _) H4].
  apply Forall_cons in H4 as [(cb & Hb & _) _].
  rewrite Ha, Hb.
  destruct (imageId ca =? imageId cb)%Z; do 3 eexists; (split; [reflexivity|]).
  - constructor; simpl; rewrite ?Hc, ?Hm; try assumption; [|constructor|lia].
    apply idsAreIndices_map; [|assumption].
    intros c. now destruct (_ || _).
  - eapply Inv_ext; [..|exact HIw]; reflexivity.
Qed.

Lemma pass_Inv (cur : World) (dt dc df : bool) :
  Inv cur ->
  exists w dc' df', pass cur cur dt dc df = Ok (w, dc', df') /\ Inv w.
Proof.
  intros HI. unfold pass.
  set (w1 := if dt then timerEffect cur cur else cur).
  assert (H1 : cards w1 = cards cur /\ flippedCards w1 = flippedCards cur
               /\ memoShuffledCards w1 = memoShuffledCards cur).
  { subst w1. destruct dt; [|auto].
    destruct (timerEffect_cases cur cur) as [-> | [_ ->]]; auto. }
  destruct H1 as (Hc & Hf & Hm).
  assert (H2 : exists w2 dc' df',
             (if dc || df then pairCheckEffect cur w1 else Ok (w1, false, false))
             = Ok (w2, dc', df') /\ Inv w2).
  { destruct (dc || df); [now apply pairCheckEffect_Inv|].
    do 3 eexists. split; [reflexivity|]. now apply (Inv_ext cur). }
  destruct H2 as (w2 & dc' & df' & -> & HI2).
  do 3 eexists. split; [reflexivity|].
  destruct dc; [|assumption]. unfold winEffect.
  destruct (_ && _); [|assumption]. eapply Inv_ext; [..|exact HI2]; reflexivity.
Qed.

Lemma renderLoop_Inv (prev cur : World) (dc df : bool) :
  Inv cur ->
  exists w, renderLoop NESTED_UPDATE_LIMIT prev cur dc df = Ok w /\ Inv w.
Proof.
  intros HI.
  destruct (renderLoop_settles NESTED_UPDATE_LIMIT prev cur dc df) as [[w Hw]|(e & He & _)].
  - unfold NESTED_UPDATE_LIMIT. lia.
  - exists w. split; [assumption|].
    eapply (renderLoop_preserves Inv); [|exact HI|exact Hw].
    intros c dt dc0 df0 w0 dc' df' Hc Hp.
    destruct (pass_Inv c dt dc0 df0 Hc) as (w1 & a & b & Hp' & HI1). congruence.
  - destruct (pass_Inv cur (timerDue prev cur) dc df HI) as (w1 & a & b & Hp' & _).
    congruence.
Qed.

Lemma handleCardClick_Inv (index : Z) (w w' : World) (dc df : bool) :
  Inv w -> handleCardClick index w = Ok (w', dc, df) -> Inv w'.
Proof.
  intros HI. unfold handleCardClick.
  destruct (isChecking w || _) eqn:Eg; [now intros [= <- <- <-]|].
  destruct (at_ (cards w) index) as [card|] eqn:Ecard; [|discriminate].
  destruct (isFlipped card || isMatched card) eqn:Ef; [now intros [= <- <- <-]|].
  intros [= <- <- <-]. apply orb_false_iff in Eg as [_ Elen], Ef as [_ Em].
  apply Nat.eqb_neq in Elen. destruct HI as [H1 H2 H3 H4 H5].
  constructor; simpl; try assumption.
  - apply idsAreIndices_imap; [|assumption]. intros i c. now destruct (_ =? _)%Z.
  - apply Forall_app. split.
    + eapply Forall_impl; [exact H4|]. intros k (c & Hk & Hc). rewrite at_imap, Hk.
      eexists. split; [reflexivity|]. now destruct (_ =? _)%Z.
    + constructor; [|constructor]. rewrite at_imap, Ecard.
      eexists. split; [reflexivity|]. now destruct (_ =? _)%Z.
  - rewrite length_app. simpl. lia.
Qed.

Lemma handle_Inv (e : Event) (w w' : World) (dc df : bool) :
  Inv w -> handle e w = Ok (w', dc, df) -> Inv w'.
Proof.
  intros HI. destruct e; simpl.
  - intros [= <- <- <-]. destruct HI as [H1 H2 H3 H4 H5].
    constructor; simpl; try assumption; [constructor|lia].
  - now apply handleCardClick_Inv.
  - intros [= <- <- <-]. destruct HI as [H1 H2 H3 H4 H5].
    constructor; simpl; try assumption; [intros i c; now rewrite lookup_nil|constructor|lia].
  - intros [= <- <- <-]. eapply Inv_ext; [..|exact HI]; reflexivity.
  - intros [= <- <- <-]. eapply Inv_ext; [..|exact HI];
      unfold handleNameSubmit; case_bool_decide; try reflexivity;
      destruct (setItem _ _); reflexivity.
  - intros [= <- <- <-]. eapply Inv_ext; [..|exact HI];
      unfold tick; destruct (_ && _); reflexivity.
  - unfold fireTimeout. destruct (timeouts w) as [|t q]; intros [= <- <- <-]; [assumption|].
    destruct HI as [H1 H2 H3 H4 H5].
    constructor; simpl; try assumption; [|constructor|lia].
    apply idsAreIndices_map; [|assumption]. intros c. now destruct (_ || _).
Qed.

(** Every event leaves a well-formed state well-formed, and no effect
    throws on the way. *)
Lemma run_Inv (events : list Event) (w : World) :
  Inv w -> exists w', run w events = Ok w' /\ Inv w'.
Proof.
  revert w. induction events as [|e events IH]; intros w HI; simpl; [eauto|].
  destruct (handle e w) as [[[w1 dc] df]|err] eqn:He; [|now apply IH].
  destruct (renderLoop_Inv w w1 dc df (handle_Inv _ _ _ _ _ HI He)) as (w2 & -> & HI2).
  now apply IH.
Qed.

(** ** Mounting *)

Lemma mountWith_eq (sort : ArraySort) (pool : list string) (rows cols : Z)
    (st : Storage) (draws : list Z) :
  mountWith sort pool rows cols st draws
  = Ok (loadHighScores
          (initialWorld (fst (buildDeck sort pool rows cols draws)) st
                        (snd (buildDeck sort pool rows cols draws)))).
Proof.
  unfold mountWith. destruct (buildDeck sort pool rows cols draws) as [deck draws'].
  simpl fst. simpl snd. unfold pass. simpl.
  apply renderLoop_quiet, timerDue_same; reflexivity.
Qed.

Lemma loadHighScores_frame (w : World) :
  cards (loadHighScores w) = cards w
  /\ flippedCards (loadHighScores w) = flippedCards w
  /\ memoShuffledCards (loadHighScores w) = memoShuffledCards w
  /\ gameState (loadHighScores w) = gameState w
  /\ isChecking (loadHighScores w) = isChecking w
  /\ localStorage (loadHighScores w) = localStorage w
  /\ random (loadHighScores w) = random w.
Proof.
  unfold loadHighScores. destruct (getItem _) as [[text|]|e]; [|tauto..].
  destruct (truthy text); [|tauto]. destruct (JSON_parse text); tauto.
Qed.

Lemma ids_seq_indices (l : list CardState) :
  map id l = map Z.of_nat (seq 0 (length l)) -> idsAreIndices l.
Proof.
  intros H i c Hlk.
  assert (Hi : (map id l) !! i = Some (id c)).
  { change (map id l) with (id <$> l). now rewrite list_lookup_fmap, Hlk. }
  rewrite H in Hi. change (map Z.of_nat ?x) with (Z.of_nat <$> x) in Hi.
  rewrite list_lookup_fmap in Hi.
  destruct (seq 0 (length l) !! i) as [j|] eqn:E; [|discriminate].
  apply lookup_seq in E as [-> _]. now injection Hi as <-.
Qed.

Lemma mountWith_Inv (sort : ArraySort) (pool : list string) (rows cols : Z)
    (st : Storage) (draws : list Z) :
  (forall A cmp l s, Permutation l (fst (sort A cmp l s))) ->
  exists w, mountWith sort pool rows cols st draws = Ok w /\ Inv w.
Proof.
  intros Hsort. rewrite mountWith_eq. eexists. split; [reflexivity|].
  destruct (buildDeck_spec sort Hsort pool rows cols draws) as (_ & _ & Hall & Hids).
  destruct (loadHighScores_frame
              (initialWorld (fst (buildDeck sort pool rows cols draws)) st
                            (snd (buildDeck sort pool rows cols draws))))
    as (Hc & Hf & Hm & _).
  eapply Inv_ext; [exact Hc|exact Hf|exact Hm|].
  constructor; simpl.
  - intros i c. now rewrite lookup_nil.
  - now apply ids_seq_indices.
  - eapply Forall_impl; [exact Hall|]. intros c (H1 & H2 & _). now split.
  - constructor.
  - lia.
Qed.

(** ** Flips *)

Lemma dispatch_quiet (w : World) (e : Event) :
  handle e w = Ok (w, false, false) -> dispatch w e = Ok w.
Proof.
  intros H. unfold dispatch. rewrite H.
  apply renderLoop_quiet, timerDue_same; reflexivity.
Qed.

Lemma click_matched_ignored (i : Z) (w : World) :
  matchedAt i w -> dispatch w (CardClick i) = Ok w.
Proof.
  intros (c & Hc & Hm). apply dispatch_quiet. simpl. unfold handleCardClick.
  destruct (isChecking w || _); [reflexivity|].
  rewrite Hc, Hm. now rewrite orb_true_r.
Qed.

Lemma matchedAt_map (f : CardState -> CardState) (i : Z) (w w' : World) :
  (forall c, isMatched c = true -> isMatched (f c) = true) ->
  cards w' = map f (cards w) -> matchedAt i w -> matchedAt i w'.
Proof.
  intros Hf Hc (c & Hlk & Hm). exists (f c). rewrite Hc, at_map, Hlk. auto.
Qed.

Lemma matchedAt_same (i : Z) (w w' : World) :
  cards w' = cards w -> matchedAt i w -> matchedAt i w'.
Proof. intros Hc (c & Hlk & Hm). exists c. now rewrite Hc. Qed.

Lemma pass_matchedAt (i : Z) (cur w : World) (dt dc df dc' df' : bool) :
  matchedAt i cur -> pass cur cur dt dc df = Ok (w, dc', df') -> matchedAt i w.
Proof.
  intros HM. unfold pass.
  set (w1 := if dt then timerEffect cur cur else cur).
  assert (H1 : cards w1 = cards cur).
  { subst w1. destruct dt; [|reflexivity].
    destruct (timerEffect_cases cur cur) as [-> | [_ ->]]; reflexivity. }
  assert (H2 : forall w2 a b,
             (if dc || df then pairCheckEffect cur w1 else Ok (w1, false, false))
             = Ok (w2, a, b) -> matchedAt i w2).
  { intros w2 a b. destruct (dc || df).
    - unfold pairCheckEffect.
      destruct (flippedCards cur) as [|x [|y [|z l]]];
        try (intros [= <- <- <-]; now apply (matchedAt_same i cur)).
      destruct (at_ (cards cur) x) as [cx|]; [|discriminate].
      destruct (at_ (cards cur) y) as [cy|]; [|discriminate].
      destruct (imageId cx =? imageId cy)%Z; intros [= <- <- <-].
      + eapply (matchedAt_map _ i cur); [|simpl; rewrite H1; reflexivity|assumption];
          intros c Hc; simpl; now destruct (_ || _).
      + now apply (matchedAt_same i cur).
    - intros [= <- <- <-]. now apply (matchedAt_same i cur). }
  destruct (if dc || df then _ else _) as [[[w2 a] b]|e]; [|discriminate].
  intros [= <- <- <-]. specialize (H2 w2 a b eq_refl).
  destruct dc; [|assumption]. unfold winEffect.
  destruct (_ && _); [|assumption]. now apply (matchedAt_same i w2).
Qed.

Lemma handle_matchedAt (i : Z) (e : Event) (w w' : World) (dc df : bool) :
  inSession e = true -> matchedAt i w -> handle e w = Ok (w', dc, df) -> matchedAt i w'.
Proof.
  intros He HM. destruct e; simpl; try discriminate.
  - unfold handleCardClick. destruct (isChecking w || _); [now intros [= <- <- <-]|].
    destruct (at_ (cards w) index) as [card|]; [|discriminate].
    destruct (isFlipped card || isMatched card); intros [= <- <- <-]; [assumption|].
    destruct HM as (c & Hlk & Hm). simpl. unfold matchedAt. simpl.
    rewrite at_imap, Hlk. eexists. split; [reflexivity|]. now destruct (_ =? _)%Z.
  - intros [= <- <- <-]. now apply (matchedAt_same i w).
  - intros [= <- <- <-]. apply (matchedAt_same i w); [|assumption].
    unfold handleNameSubmit. case_bool_decide; [reflexivity|].
    destruct (setItem _ _); reflexivity.
  - intros [= <- <- <-]. apply (matchedAt_same i w); [|assumption].
    unfold tick. destruct (_ && _); reflexivity.
  - unfold fireTimeout. destruct (timeouts w); intros [= <- <- <-]; [assumption|].
    eapply (matchedAt_map _ i w); [|reflexivity|assumption];
      intros c Hc; simpl; now destruct (_ || _).
Qed.

Lemma run_matchedAt (i : Z) (events : list Event) (w w' : World) :
  forallb inSession events = true -> matchedAt i w ->
  run w events = Ok w' -> matchedAt i w'.
Proof.
  revert w. induction events as [|e events IH]; intros w Hall HM; simpl.
  - now intros [= <-].
  - simpl in Hall. apply andb_true_iff in Hall as [He Hall].
    destruct (handle e w) as [[[w1 dc] df]|err] eqn:Hh; [|now apply IH].
    destruct (renderLoop _ w w1 dc df) as [w2|err] eqn:Hr; [|discriminate].
    apply IH; [assumption|].
    eapply (renderLoop_preserves (matchedAt i)); [|eapply handle_matchedAt; eassumption|exact Hr].
    intros c dt dc0 df0 w0 dc' df' Hc Hp. eapply pass_matchedAt; eassumption.
Qed.

Lemma matched_not_flipped (i : Z) (w : World) :
  Inv w -> matchedAt i w -> i ∉ flippedCards w.
Proof.
  intros HI (c & Hlk & Hm) Hin. destruct HI as [_ _ _ H4 _].
  rewrite Forall_forall in H4. destruct (H4 i Hin) as (c' & Hlk' & Hm'). congruence.
Qed.

(** C1. In every state the component reaches from mounting, through any
    events whatsoever, [flippedCards] holds at most two indices; and a
    matched card is not among them, a click on it changes nothing, and this
    stays so through every further event of the session. *)
Theorem flipped_at_most_two_matched_final
    (sort : ArraySort) (pool : list string) (rows cols : Z)
    (st : Storage) (draws : list Z) :
  (forall A cmp l s, Permutation l (fst (sort A cmp l s))) ->
  exists w0,
    mountWith sort pool rows cols st draws = Ok w0
    /\ forall events, exists w,
        run w0 events = Ok w
        /\ (length (flippedCards w) <= 2)%nat
        /\ forall i, matchedAt i w ->
             (i ∉ flippedCards w)
             /\ dispatch w (CardClick i) = Ok w
             /\ forall later, forallb inSession later = true ->
                  exists w', run w later = Ok w'
                             /\ matchedAt i w'
                             /\ (i ∉ flippedCards w')
                             /\ dispatch w' (CardClick i) = Ok w'.
Proof.
  intros Hsort.
  destruct (mountWith_Inv sort pool rows cols st draws Hsort) as (w0 & Hm & HI0).
  exists w0. split; [assumption|]. intros events.
  destruct (run_Inv events w0 HI0) as (w & Hr & HI). exists w.
  split; [assumption|]. split; [apply HI|]. intros i HM.
  split; [now apply matched_not_flipped|].
  split; [now apply click_matched_ignored|]. intros later Hlater.
  destruct (run_Inv later w HI) as (w' & Hr' & HI'). exists w'.
  assert (HM' : matchedAt i w') by (eapply run_matchedAt; eassumption).
  split; [assumption|]. split; [assumption|].
  split; [now apply matched_not_flipped|now apply click_matched_ignored].
Qed.

(** Cards 0 and 11 of this deck show the same image. *)
Lemma flipped_at_most_two_matched_final_witness :
  exists w0 w,
    mount insertionSort emptyStore someDraws = Ok w0
    /\ run w0 [StartGame; CardClick 0%Z; CardClick 11%Z] = Ok w
    /\ matchedAt 0%Z w
    /\ (length (flippedCards w) <= 2)%nat
    /\ dispatch w (CardClick 0%Z) = Ok w.
Proof.
  destruct (flipped_at_most_two_matched_final insertionSort IMAGE_PATHS GRID_ROWS
              GRID_COLS emptyStore someDraws insertionSort_permutes)
    as (w0 & Hm & H).
  destruct (H [StartGame; CardClick 0%Z; CardClick 11%Z]) as (w & Hr & Hlen & Hmatched).
  exists w0, w. split; [exact Hm|]. split; [exact Hr|].
  assert (HM : matchedAt 0%Z w).
  { vm_compute in Hm. injection Hm as <-. vm_compute in Hr. injection Hr as <-.
    eexists. split; reflexivity. }
  split; [exact HM|]. split; [exact Hlen|]. apply (Hmatched 0%Z HM).
Defined.

(** ** Effects that only move the phase *)

Lemma phaseOnly_refl (w : World) : phaseOnly w w.
Proof. unfold phaseOnly. now destruct w. Qed.

Lemma phaseOnly_set (g : GameState) (w : World) : phaseOnly w (setGameState g w).
Proof. reflexivity. Qed.

Lemma phaseOnly_trans (w1 w2 w3 : World) :
  phaseOnly w1 w2 -> phaseOnly w2 w3 -> phaseOnly w1 w3.
Proof. unfold phaseOnly. intros H12 H23. rewrite H23 at 1. now rewrite H12. Qed.

Lemma phaseOnly_fields (w w' : World) :
  phaseOnly w w' ->
  cards w' = cards w /\ flippedCards w' = flippedCards w
  /\ mismatchedCards w' = mismatchedCards w /\ moves w' = moves w
  /\ isChecking w' = isChecking w /\ timeLeft w' = timeLeft w
  /\ playerName w' = playerName w /\ highScores w' = highScores w
  /\ memoShuffledCards w' = memoShuffledCards w /\ timeouts w' = timeouts w
  /\ localStorage w' = localStorage w /\ console w' = console w
  /\ random w' = random w.
Proof. unfold phaseOnly. intros ->. simpl. tauto. Qed.

Lemma timerEffect_phaseOnly (r w : World) : phaseOnly w (timerEffect r w).
Proof.
  destruct (timerEffect_cases r w) as [-> | [_ ->]];
    [apply phaseOnly_refl | apply phaseOnly_set].
Qed.

Lemma winEffect_phaseOnly (r w : World) : phaseOnly w (winEffect r w).
Proof.
  unfold winEffect. destruct (_ && _); [apply phaseOnly_set | apply phaseOnly_refl].
Qed.

Lemma pass_idle_phaseOnly (cur w : World) (dt dc df dc' df' : bool) :
  length (flippedCards cur) <> 2%nat ->
  pass cur cur dt dc df = Ok (w, dc', df') -> phaseOnly cur w.
Proof.
  intros Hlen. unfold pass.
  assert (H1 : phaseOnly cur (if dt then timerEffect cur cur else cur))
    by (destruct dt; [apply timerEffect_phaseOnly | apply phaseOnly_refl]).
  destruct (dc || df); [rewrite pairCheckEffect_idle by assumption|];
    intros [= <- <- <-]; (eapply phaseOnly_trans; [exact H1|]);
    destruct dc; try apply winEffect_phaseOnly; apply phaseOnly_refl.
Qed.

(** With no pair to check, rendering moves the phase at most. *)
Lemma renderLoop_idle_phaseOnly (n : nat) (prev cur : World) (dc df : bool) :
  (3 <= n)%nat -> length (flippedCards cur) <> 2%nat ->
  exists w, renderLoop n prev cur dc df = Ok w /\ phaseOnly cur w.
Proof.
  intros Hn Hlen. destruct (renderLoop_idle n prev cur dc df Hn Hlen) as [w Hw].
  exists w. split; [assumption|].
  assert (H : phaseOnly cur w /\ length (flippedCards w) <> 2%nat); [|tauto].
  eapply (renderLoop_preserves
            (fun x => phaseOnly cur x /\ length (flippedCards x) <> 2%nat));
    [|split; [apply phaseOnly_refl|exact Hlen]|exact Hw].
  intros c dt dc0 df0 w0 dc' df' [Hp Hl] Hpass.
  pose proof (pass_idle_phaseOnly _ _ _ _ _ _ _ Hl Hpass) as Hp'.
  split; [now apply (phaseOnly_trans cur c)|].
  apply phaseOnly_fields in Hp'. destruct Hp' as (_ & -> & _). assumption.
Qed.

Lemma renderLoop_quiet_phaseOnly (n : nat) (prev cur : World) :
  (2 <= n)%nat ->
  exists w, renderLoop n prev cur false false = Ok w /\ phaseOnly cur w.
Proof.
  intros Hn. rewrite renderLoop_timer by assumption. eexists. split; [reflexivity|].
  destruct (timerDue prev cur); [apply timerEffect_phaseOnly | apply phaseOnly_refl].
Qed.

Lemma run_app (w : World) (a b : list Event) :
  run w (a ++ b) = match run w a with
                   | Ok w' => run w' b
                   | Throw e => Throw e
                   end.
Proof.
  revert w. induction a as [|e a IH]; intros w; simpl; [reflexivity|].
  destruct (handle e w) as [[[w1 dc] df]|err]; [|apply IH].
  destruct (renderLoop _ w w1 dc df); [apply IH | reflexivity].
Qed.

Lemma run_one (w : World) (e : Event) (w' : World) :
  dispatch w e = Ok w' -> run w [e] = Ok w'.
Proof.
  unfold dispatch. simpl. destruct (handle e w) as [[[w1 dc] df]|err]; [|discriminate].
  now intros ->.
Qed.

(** ** Mismatch *)

Lemma click_ignored_while_checking (w : World) (k : Z) :
  isChecking w = true -> dispatch w (CardClick k) = Ok w.
Proof.
  intros H. apply dispatch_quiet. simpl. unfold handleCardClick. now rewrite H.
Qed.

Lemma forallb_isMatched_false (l : list CardState) (k : Z) (c : CardState) :
  at_ l k = Some c -> isMatched c = false -> forallb isMatched l = false.
Proof.
  intros Hlk Hm. apply at_Some_bounds in Hlk as [_ Hlk].
  apply not_true_is_false. intros Hall. rewrite forallb_forall in Hall.
  apply list_elem_of_lookup_2, list_elem_of_In in Hlk. apply Hall in Hlk. congruence.
Qed.

Lemma imageId_flip_if (b v : bool) (c : CardState) :
  imageId (if b then withIsFlipped v c else c) = imageId c.
Proof. now destruct b. Qed.

Lemma id_flip_if (b v : bool) (c : CardState) :
  id (if b then withIsFlipped v c else c) = id c.
Proof. now destruct b. Qed.

Lemma at_id (w : World) (k : Z) (c : CardState) :
  idsAreIndices (cards w) -> at_ (cards w) k = Some c -> id c = k.
Proof.
  intros Hids Hlk. apply at_Some_bounds in Hlk as [Hk Hlk].
  rewrite (Hids _ _ Hlk). lia.
Qed.

(** The second click of a pair whose images differ. *)
Lemma click_mismatch (w : World) (i j : Z) (ci cj : CardState) :
  idsAreIndices (cards w) ->
  isChecking w = false -> flippedCards w = [i] ->
  at_ (cards w) i = Some ci -> at_ (cards w) j = Some cj ->
  isFlipped cj = false -> isMatched cj = false ->
  imageId ci <> imageId cj ->
  exists w1,
    dispatch w (CardClick j) = Ok w1
    /\ isChecking w1 = true
    /\ flippedCards w1 = [i; j]
    /\ mismatchedCards w1 = [i; j]
    /\ moves w1 = (moves w + 1)%Z
    /\ timeouts w1 = timeouts w ++ [mkTimeout MISMATCH_DELAY i j]
    /\ cards w1 = imap (fun k card => if (Z.of_nat k =? j)%Z
                                      then withIsFlipped true card else card) (cards w)
    /\ gameState w1 = gameState w.
Proof.
  intros Hids Hck Hfl Hci Hcj Hfj Hmj Hne.
  unfold dispatch. simpl. unfold handleCardClick.
  rewrite Hck, Hfl, Hcj, Hfj, Hmj. simpl.
  unfold NESTED_UPDATE_LIMIT. rewrite renderLoop_S.
  rewrite timerDue_same by reflexivity. simpl.
  unfold pass, pairCheckEffect. simpl. rewrite Hfl. simpl.
  rewrite !at_imap, Hci, Hcj. simpl.
  rewrite !imageId_flip_if, !id_flip_if.
  rewrite (proj2 (Z.eqb_neq _ _) Hne).
  rewrite (at_id w i ci Hids Hci), (at_id w j cj Hids Hcj).
  unfold winEffect. simpl.
  rewrite (forallb_isMatched_false _ j
             (if (Z.of_nat (Z.to_nat j) =? j)%Z then withIsFlipped true cj else cj)).
  - rewrite andb_false_r. rewrite renderLoop_quiet by (apply timerDue_same; reflexivity).
    eexists. split; [reflexivity|]. simpl. tauto.
  - now rewrite at_imap, Hcj.
  - now destruct (_ =? _)%Z.
Qed.

Lemma run_waiting (between : list Event) (w : World) :
  isChecking w = true -> forallb waiting between = true ->
  exists w', run w between = Ok w'
             /\ isChecking w' = true /\ cards w' = cards w
             /\ flippedCards w' = flippedCards w /\ timeouts w' = timeouts w
             /\ moves w' = moves w.
Proof.
  revert w. induction between as [|e between IH]; intros w Hck Hall; simpl.
  - eexists. split; [reflexivity|]. tauto.
  - simpl in Hall. apply andb_true_iff in Hall as [He Hall].
    destruct e; try discriminate; simpl.
    + unfold handleCardClick. rewrite Hck. simpl.
      rewrite renderLoop_quiet by (apply timerDue_same; reflexivity).
      now apply IH.
    + destruct (renderLoop_quiet_phaseOnly NESTED_UPDATE_LIMIT w (tick w))
        as (w1 & -> & Hp); [unfold NESTED_UPDATE_LIMIT; lia|].
      apply phaseOnly_fields in Hp.
      destruct Hp as (Hc & Hf & _ & Hmv & Hi & _ & _ & _ & _ & Hto & _).
      assert (Ht : isChecking (tick w) = isChecking w /\ cards (tick w) = cards w
                   /\ flippedCards (tick w) = flippedCards w
                   /\ timeouts (tick w) = timeouts w /\ moves (tick w) = moves w)
        by (unfold tick; destruct (_ && _); simpl; tauto).
      destruct Ht as (T1 & T2 & T3 & T4 & T5).
      destruct (IH w1) as (w' & Hr & R1 & R2 & R3 & R4 & R5); [congruence|assumption|].
      exists w'. split; [assumption|]. repeat split; congruence.
Qed.

(** A timeout firing: the callback's update, then at most a phase change. *)
Lemma timeout_fires (w : World) (t : Timeout) (q : list Timeout) :
  timeouts w = t :: q ->
  exists w', dispatch w TimeoutFires = Ok w'
             /\ phaseOnly (mismatchCallback t (dropTimeout w)) w'.
Proof.
  intros Hq. unfold dispatch. simpl. unfold fireTimeout. rewrite Hq.
  apply renderLoop_idle_phaseOnly; [unfold NESTED_UPDATE_LIMIT; lia|]. simpl. lia.
Qed.

Lemma run_cons (w w1 : World) (e : Event) (events : list Event) :
  dispatch w e = Ok w1 -> run w (e :: events) = run w1 events.
Proof.
  unfold dispatch. simpl. destruct (handle e w) as [[[w0 dc] df]|err]; [|discriminate].
  now intros ->.
Qed.

(** All pending callbacks fire, oldest first; the one scheduled last has
    the last word on its two cards. *)
Lemma fire_all (q : list Timeout) (w : World) :
  timeouts w = q -> idsAreIndices (cards w) ->
  exists w', run w (repeat TimeoutFires (length q)) = Ok w'
             /\ timeouts w' = []
             /\ forall t, last q = Some t ->
                  flippedCards w' = [] /\ isChecking w' = false
                  /\ forall k c, at_ (cards w) k = Some c ->
                       k = firstId t \/ k = secondId t ->
                       exists c', at_ (cards w') k = Some c' /\ isFlipped c' = false.
Proof.
  revert w. induction q as [|t0 q IH]; intros w Hq Hids.
  - exists w. split; [reflexivity|]. split; [assumption|]. discriminate.
  - change (repeat TimeoutFires (length (t0 :: q)))
      with (TimeoutFires :: repeat TimeoutFires (length q)).
    destruct (timeout_fires w t0 q Hq) as (w1 & Hd & Hp).
    apply phaseOnly_fields in Hp. simpl in Hp. rewrite Hq in Hp. simpl in Hp.
    destruct Hp as (Hc & Hf & _ & _ & Hi & _ & _ & _ & _ & Ht & _).
    assert (Hids1 : idsAreIndices (cards w1)).
    { rewrite Hc. apply idsAreIndices_map; [|assumption].
      intros c. now destruct (_ || _). }
    rewrite (run_cons w w1 _ _ Hd).
    destruct (IH w1 Ht Hids1) as (w' & Hr & Ht' & Hlast).
    exists w'. split; [assumption|]. split; [assumption|]. intros t Hl.
    destruct q as [|t1 q].
    + injection Hl as <-. simpl in Hr. injection Hr as <-.
      split; [assumption|]. split; [assumption|]. intros k c Hk Hor.
      rewrite Hc, at_map, Hk. eexists. split; [reflexivity|].
      rewrite (at_id w k c Hids Hk).
      destruct Hor as [-> | ->]; rewrite Z.eqb_refl, ?orb_true_r; reflexivity.
    + destruct (Hlast t Hl) as (Hf' & Hi' & Hcards).
      split; [assumption|]. split; [assumption|]. intros k c Hk Hor.
      apply (Hcards k (if (id c =? firstId t0)%Z || (id c =? secondId t0)%Z
                       then withIsFlipped false c else c)); [|assumption].
      now rewrite Hc, at_map, Hk.
Qed.

(** C3, as the code has it. When the second card of a pair shows a
    different image, the component starts checking, with the two cards face
    up and a callback scheduled 1000 ms ahead; while it is checking every
    click is ignored, and clicks and ticks leave it checking.  With no
    callback of an earlier mismatch pending, checking lasts until that
    callback fires, and then both cards are face down again, [flippedCards]
    is empty and checking is over.  With such a callback pending, that one
    fires first and ends checking there and then, emptying [flippedCards]
    and turning down only the cards that carry its own two ids; the pair's
    own callback stays pending.  In either case, once all pending callbacks
    have fired, this one last, both cards are face down, [flippedCards] is
    empty and checking is over. *)
Theorem mismatch_locks_then_resolves (w : World) (i j : Z) (ci cj : CardState) :
  idsAreIndices (cards w) ->
  isChecking w = false -> flippedCards w = [i] ->
  at_ (cards w) i = Some ci -> at_ (cards w) j = Some cj ->
  isFlipped cj = false -> isMatched cj = false ->
  imageId ci <> imageId cj ->
  exists w1,
    dispatch w (CardClick j) = Ok w1
    /\ isChecking w1 = true
    /\ flippedCards w1 = [i; j]
    /\ timeouts w1 = timeouts w ++ [mkTimeout 1000 i j]
    /\ (forall k, dispatch w1 (CardClick k) = Ok w1)
    /\ forall between, forallb waiting between = true ->
         (exists wb, run w1 between = Ok wb
                     /\ isChecking wb = true
                     /\ cards wb = cards w1
                     /\ flippedCards wb = [i; j]
                     /\ forall k, dispatch wb (CardClick k) = Ok wb)
         /\ (timeouts w = [] ->
             exists w2, run w1 (between ++ [TimeoutFires]) = Ok w2
                        /\ (exists ci' cj',
                               at_ (cards w2) i = Some ci' /\ isFlipped ci' = false
                               /\ at_ (cards w2) j = Some cj' /\ isFlipped cj' = false)
                        /\ flippedCards w2 = []
                        /\ isChecking w2 = false
                        /\ timeouts w2 = [])
         /\ (forall t q, timeouts w = t :: q ->
             exists w3, run w1 (between ++ [TimeoutFires]) = Ok w3
                        /\ isChecking w3 = false
                        /\ flippedCards w3 = []
                        /\ cards w3
                           = map (fun card =>
                                    if (id card =? firstId t)%Z || (id card =? secondId t)%Z
                                    then withIsFlipped false card else card)
                                 (cards w1)
                        /\ timeouts w3 = q ++ [mkTimeout 1000 i j])
         /\ exists w2, run w1 (between
                               ++ repeat TimeoutFires (S (length (timeouts w)))) = Ok w2
                       /\ (exists ci' cj',
                              at_ (cards w2) i = Some ci' /\ isFlipped ci' = false
                              /\ at_ (cards w2) j = Some cj' /\ isFlipped cj' = false)
                       /\ flippedCards w2 = []
                       /\ isChecking w2 = false
                       /\ timeouts w2 = [].
Proof.
  intros Hids Hck Hfl Hci Hcj Hfj Hmj Hne.
  destruct (click_mismatch w i j ci cj Hids Hck Hfl Hci Hcj Hfj Hmj Hne)
    as (w1 & Hd & H1 & H2 & _ & _ & H3 & H4 & _).
  exists w1. split; [assumption|]. split; [assumption|]. split; [assumption|].
  split; [assumption|].
  split; [intros k; now apply click_ignored_while_checking|].
  intros between Hb.
  destruct (run_waiting between w1 H1 Hb) as (wb & Hr & B1 & B2 & B3 & B4 & _).
  assert (Hidsb : idsAreIndices (cards wb)).
  { rewrite B2, H4. apply idsAreIndices_imap; [|assumption].
    intros k c. now destruct (_ =? _)%Z. }
  assert (Hall : exists w2,
             run w1 (between ++ repeat TimeoutFires (S (length (timeouts w)))) = Ok w2
             /\ (exists ci' cj',
                    at_ (cards w2) i = Some ci' /\ isFlipped ci' = false
                    /\ at_ (cards w2) j = Some cj' /\ isFlipped cj' = false)
             /\ flippedCards w2 = []
             /\ isChecking w2 = false
             /\ timeouts w2 = []).
  { rewrite run_app, Hr.
    destruct (fire_all (timeouts w ++ [mkTimeout MISMATCH_DELAY i j]) wb)
      as (w2 & Hr2 & Ht2 & Hlast); [congruence|assumption|].
    rewrite length_app, Nat.add_comm in Hr2. simpl in Hr2.
    exists w2. split; [exact Hr2|].
    destruct (Hlast (mkTimeout MISMATCH_DELAY i j)) as (Hf2 & Hi2 & Hcards);
      [apply last_snoc|].
    split; [|tauto].
    destruct (Hcards i (if (Z.of_nat (Z.to_nat i) =? j)%Z then withIsFlipped true ci else ci))
      as (ci' & Hi' & Hfi'); [rewrite B2, H4, at_imap, Hci; reflexivity|now left|].
    destruct (Hcards j (if (Z.of_nat (Z.to_nat j) =? j)%Z then withIsFlipped true cj else cj))
      as (cj' & Hj' & Hfj'); [rewrite B2, H4, at_imap, Hcj; reflexivity|now right|].
    exists ci', cj'. tauto. }
  split; [|split; [|split]].
  - exists wb. split; [assumption|]. split; [assumption|]. split; [assumption|].
    split; [congruence|]. intros k. now apply click_ignored_while_checking.
  - intros Hq. rewrite Hq in Hall. exact Hall.
  - intros t q Hq.
    destruct (timeout_fires wb t (q ++ [mkTimeout MISMATCH_DELAY i j]))
      as (w3 & Hd3 & Hp); [rewrite B4, H3, Hq; reflexivity|].
    exists w3. split.
    { rewrite run_app, Hr. apply run_one. exact Hd3. }
    apply phaseOnly_fields in Hp. simpl in Hp.
    rewrite B4, H3, Hq in Hp. simpl in Hp. rewrite B2 in Hp.
    destruct Hp as (Hc & Hf & _ & _ & Hi & _ & _ & _ & _ & Ht & _).
    split; [exact Hi|]. split; [exact Hf|]. split; [exact Hc|exact Ht].
  - exact Hall.
Qed.

(** Cards 0 and 1 of the example deck show different images. *)
Lemma mismatch_locks_then_resolves_witness :
  let w := after [StartGame; CardClick 0%Z] mounted in
  exists w1,
    dispatch w (CardClick 1%Z) = Ok w1
    /\ isChecking w1 = true
    /\ flippedCards w1 = [0%Z; 1%Z]
    /\ timeouts w1 = [mkTimeout 1000 0 1]
    /\ exists w2, run w1 [CardClick 2%Z; Tick; TimeoutFires] = Ok w2
                  /\ flippedCards w2 = []
                  /\ isChecking w2 = false.
Proof.
  intros w.
  assert (Hw : exists ci cj, at_ (cards w) 0%Z = Some ci /\ at_ (cards w) 1%Z = Some cj
                             /\ isFlipped cj = false /\ isMatched cj = false
                             /\ imageId ci <> imageId cj).
  { eexists _, _. split; [vm_compute; reflexivity|].
    split; [vm_compute; reflexivity|].
    split; [reflexivity|]. split; [reflexivity|]. vm_compute. discriminate. }
  destruct Hw as (ci & cj & Hci & Hcj & Hfj & Hmj & Hne).
  destruct (mismatch_locks_then_resolves w 0%Z 1%Z ci cj)
    as (w1 & Hd & H1 & H2 & H3 & _ & Hlater);
    [apply ids_seq_indices; vm_compute; reflexivity | vm_compute; reflexivity
    | vm_compute; reflexivity
    | exact Hci | exact Hcj | exact Hfj | exact Hmj | exact Hne |].
  exists w1. split; [exact Hd|]. split; [exact H1|]. split; [exact H2|].
  split; [exact H3|].
  destruct (Hlater [CardClick 2%Z; Tick] eq_refl) as (_ & Hnone & _).
  destruct Hnone as (w2 & Hr & _ & Hf & Hi & _); [vm_compute; reflexivity|].
  exists w2. split; [exact Hr|]. split; [exact Hf|exact Hi].
Defined.

(** C3, as stated, fails. The time runs out while cards 0 and 1 wait to be
    turned back; the player resets, starts again and turns cards 2 and 3,
    which do not match, so the component is checking, with two callbacks
    pending.  The older one fires: checking is over and [flippedCards] is
    empty although cards 2 and 3 lie face up and their own callback is
    still to come; and the click on card 4 that follows is let through. *)
Lemma older_callback_ends_checking_early :
  exists w1 w2 w3 c2 c3 c4,
    run mounted (StartGame :: repeat Tick 179
                 ++ [CardClick 0%Z; CardClick 1%Z; Tick; ResetGame; StartGame;
                     CardClick 2%Z; CardClick 3%Z]) = Ok w1
    /\ gameState w1 = playing
    /\ isChecking w1 = true
    /\ flippedCards w1 = [2%Z; 3%Z]
    /\ timeouts w1 = [mkTimeout 1000 0 1; mkTimeout 1000 2 3]
    /\ dispatch w1 TimeoutFires = Ok w2
    /\ isChecking w2 = false
    /\ flippedCards w2 = []
    /\ timeouts w2 = [mkTimeout 1000 2 3]
    /\ at_ (cards w2) 2%Z = Some c2 /\ isFlipped c2 = true
    /\ at_ (cards w2) 3%Z = Some c3 /\ isFlipped c3 = true
    /\ dispatch w2 (CardClick 4%Z) = Ok w3
    /\ flippedCards w3 = [4%Z]
    /\ at_ (cards w3) 4%Z = Some c4 /\ isFlipped c4 = true.
Proof.
  eexists _, _, _, _, _, _. split; [vm_compute; reflexivity|].
  split; [reflexivity|]. split; [reflexivity|]. split; [reflexivity|].
  split; [reflexivity|]. split; [vm_compute; reflexivity|].
  split; [reflexivity|]. split; [reflexivity|]. split; [reflexivity|].
  split; [reflexivity|]. split; [reflexivity|].
  split; [reflexivity|]. split; [reflexivity|].
  split; [vm_compute; reflexivity|]. split; [reflexivity|].
  split; reflexivity.
Qed.

(** ** What rendering and the handlers leave alone *)

Lemma sameLedger_refl (w : World) : sameLedger w w.
Proof. unfold sameLedger. tauto. Qed.

Lemma sameLedger_trans (w1 w2 w3 : World) :
  sameLedger w1 w2 -> sameLedger w2 w3 -> sameLedger w1 w3.
Proof. unfold sameLedger. intros (A & B & C & D) (E & F & G & H). repeat split; congruence. Qed.

Lemma phaseOnly_sameLedger (w w' : World) : phaseOnly w w' -> sameLedger w w'.
Proof. intros H. apply phaseOnly_fields in H. unfold sameLedger. tauto. Qed.

Lemma pairCheckEffect_sameLedger (r w w' : World) (dc df : bool) :
  pairCheckEffect r w = Ok (w', dc, df) -> sameLedger w w'.
Proof.
  unfold pairCheckEffect.
  destruct (flippedCards r) as [|a [|b [|c l]]];
    try (intros [= <- <- <-]; apply sameLedger_refl).
  destruct (at_ (cards r) a); [|discriminate].
  destruct (at_ (cards r) b); [|discriminate].
  destruct (_ =? _)%Z; intros [= <- <- <-]; unfold sameLedger; simpl; tauto.
Qed.

Lemma pass_sameLedger (cur w : World) (dt dc df dc' df' : bool) :
  pass cur cur dt dc df = Ok (w, dc', df') -> sameLedger cur w.
Proof.
  unfold pass.
  assert (H1 : sameLedger cur (if dt then timerEffect cur cur else cur)).
  { destruct dt; [|apply sameLedger_refl].
    apply phaseOnly_sameLedger, timerEffect_phaseOnly. }
  destruct (dc || df).
  - destruct (pairCheckEffect cur _) as [[[w2 a] b]|e] eqn:E; [|discriminate].
    intros [= <- <- <-]. apply pairCheckEffect_sameLedger in E.
    eapply sameLedger_trans; [exact H1|]. eapply sameLedger_trans; [exact E|].
    destruct dc; [|apply sameLedger_refl].
    apply phaseOnly_sameLedger, winEffect_phaseOnly.
  - intros [= <- <- <-]. eapply sameLedger_trans; [exact H1|].
    destruct dc; [|apply sameLedger_refl].
    apply phaseOnly_sameLedger, winEffect_phaseOnly.
Qed.

Lemma renderLoop_sameLedger (n : nat) (prev cur w : World) (dc df : bool) :
  renderLoop n prev cur dc df = Ok w -> sameLedger cur w.
Proof.
  intros H.
  eapply (renderLoop_preserves (sameLedger cur)); [|apply sameLedger_refl|exact H].
  intros c dt dc0 df0 w0 dc' df' Hc Hp.
  eapply sameLedger_trans; [exact Hc|]. eapply pass_sameLedger; exact Hp.
Qed.

Lemma handle_sameLedger (e : Event) (w w' : World) (dc df : bool) :
  e <> NameSubmit -> handle e w = Ok (w', dc, df) -> sameLedger w w'.
Proof.
  intros Hne. destruct e; simpl; try congruence;
    try (intros [= <- <- <-]; unfold sameLedger; simpl; tauto).
  - unfold handleCardClick. destruct (isChecking w || _); [intros [= <- <- <-]; apply sameLedger_refl|].
    destruct (at_ (cards w) index) as [card|]; [|discriminate].
    destruct (_ || _); intros [= <- <- <-]; unfold sameLedger; simpl; tauto.
  - intros [= <- <- <-]. unfold tick. destruct (_ && _); unfold sameLedger; simpl; tauto.
  - unfold fireTimeout. destruct (timeouts w); intros [= <- <- <-];
      unfold sameLedger; simpl; tauto.
Qed.

Lemma dispatch_sameLedger (e : Event) (w w' : World) :
  e <> NameSubmit -> dispatch w e = Ok w' -> sameLedger w w'.
Proof.
  intros Hne. unfold dispatch.
  destruct (handle e w) as [[[w1 dc] df]|err] eqn:Hh; [|discriminate].
  intros Hr. eapply sameLedger_trans;
    [eapply handle_sameLedger; eassumption | eapply renderLoop_sameLedger; exact Hr].
Qed.

(** The memoised deck and the random source are touched by no event at
    all. *)
Lemma run_memo_random (events : list Event) (w w' : World) :
  run w events = Ok w' ->
  memoShuffledCards w' = memoShuffledCards w /\ random w' = random w.
Proof.
  revert w. induction events as [|e events IH]; intros w; simpl.
  - now intros [= <-].
  - destruct (handle e w) as [[[w1 dc] df]|err] eqn:Hh; [|apply IH].
    destruct (renderLoop _ w w1 dc df) as [w2|err] eqn:Hr; [|discriminate].
    intros H. apply IH in H as [H1 H2].
    apply renderLoop_sameLedger in Hr as (_ & _ & R1 & R2).
    assert (Hw1 : memoShuffledCards w1 = memoShuffledCards w /\ random w1 = random w).
    { destruct (decide (e = NameSubmit)) as [->|Hne].
      - simpl in Hh. injection Hh as <- _ _. unfold handleNameSubmit.
        case_bool_decide; [tauto|]. destruct (setItem _ _); simpl; tauto.
      - apply handle_sameLedger in Hh as (_ & _ & A & B); tauto. }
    split; [rewrite H1, R1 | rewrite H2, R2]; tauto.
Qed.

(** ** Start and reset *)

Lemma winEffect_fresh (r w : World) :
  Forall faceDown (cards r) -> winEffect r w = w.
Proof.
  intros H. unfold winEffect. destruct (cards r) as [|c l]; [reflexivity|].
  apply Forall_cons in H as [[_ Hm] _]. simpl. now rewrite Hm.
Qed.

Lemma timerEffect_time_left (r w : World) :
  (0 < timeLeft r)%Z -> timerEffect r w = w.
Proof.
  intros H. unfold timerEffect.
  rewrite (proj2 (Z.leb_gt _ _) H). simpl. now destruct (negb _).
Qed.

Lemma dispatch_StartGame (w : World) :
  Forall faceDown (memoShuffledCards w) ->
  dispatch w StartGame = Ok (handleStartGame w).
Proof.
  intros Hfresh. unfold dispatch. simpl. unfold NESTED_UPDATE_LIMIT.
  rewrite renderLoop_S. rewrite !orb_true_r. unfold pass.
  rewrite pairCheckEffect_idle by (simpl; lia). simpl orb. cbv iota.
  rewrite winEffect_fresh by exact Hfresh.
  assert (H1 : (if timerDue w (handleStartGame w)
                then timerEffect (handleStartGame w) (handleStartGame w)
                else handleStartGame w) = handleStartGame w).
  { destruct (timerDue _ _); [|reflexivity].
    apply timerEffect_time_left. simpl. unfold GAME_DURATION. lia. }
  rewrite H1. apply renderLoop_quiet, timerDue_same; reflexivity.
Qed.

Lemma dispatch_ResetGame (w : World) :
  dispatch w ResetGame = Ok (handleResetGame w).
Proof.
  unfold dispatch. simpl. unfold NESTED_UPDATE_LIMIT.
  rewrite renderLoop_S. rewrite !orb_true_r. unfold pass.
  rewrite pairCheckEffect_idle by (simpl; lia). simpl orb. cbv iota.
  rewrite timerEffect_idle by (simpl; discriminate).
  assert (H1 : winEffect (handleResetGame w)
                 (if timerDue w (handleResetGame w)
                  then handleResetGame w else handleResetGame w)
               = handleResetGame w) by (now destruct (timerDue _ _)).
  rewrite H1. apply renderLoop_quiet, timerDue_same; reflexivity.
Qed.

Lemma dispatch_NameSubmit (w : World) :
  dispatch w NameSubmit = Ok (handleNameSubmit w).
Proof.
  unfold dispatch. simpl. rewrite renderLoop_timer by (unfold NESTED_UPDATE_LIMIT; lia).
  destruct (timerDue w (handleNameSubmit w)) eqn:E; [|reflexivity].
  rewrite timerEffect_idle; [reflexivity|].
  unfold handleNameSubmit in *. case_bool_decide.
  - rewrite timerDue_same in E by reflexivity. discriminate.
  - simpl. discriminate.
Qed.

(** C10. Start and reset assign the cards, the flipped list, the move
    count, the time and the phase, and leave the ledger alone, in memory
    and in the store; so does every event other than the name submission. *)
Theorem start_reset_preserve_ledger (w : World) :
  Forall faceDown (memoShuffledCards w) ->
  (exists w', dispatch w StartGame = Ok w'
              /\ cards w' = memoShuffledCards w /\ flippedCards w' = []
              /\ moves w' = 0%Z /\ timeLeft w' = GAME_DURATION
              /\ gameState w' = playing
              /\ highScores w' = highScores w
              /\ localStorage w' = localStorage w)
  /\ (exists w', dispatch w ResetGame = Ok w'
                 /\ cards w' = [] /\ flippedCards w' = []
                 /\ moves w' = 0%Z /\ timeLeft w' = GAME_DURATION
                 /\ gameState w' = start
                 /\ highScores w' = highScores w
                 /\ localStorage w' = localStorage w)
  /\ (forall e w', e <> NameSubmit -> dispatch w e = Ok w' ->
                   highScores w' = highScores w
                   /\ localStorage w' = localStorage w).
Proof.
  intros Hfresh. split; [|split].
  - exists (handleStartGame w). split; [now apply dispatch_StartGame|].
    simpl. tauto.
  - exists (handleResetGame w). split; [apply dispatch_ResetGame|].
    simpl. tauto.
  - intros e w' Hne Hd. apply dispatch_sameLedger in Hd; [|assumption].
    unfold sameLedger in Hd. tauto.
Qed.

Lemma mountedFrom_Inv (st : Storage) : Inv (mountedFrom st).
Proof.
  destruct (mountWith_Inv insertionSort IMAGE_PATHS GRID_ROWS GRID_COLS st someDraws
              insertionSort_permutes) as (w & Hm & HI).
  unfold mountedFrom, mount. now rewrite Hm.
Qed.

Lemma after_Inv (events : list Event) (w : World) : Inv w -> Inv (after events w).
Proof.
  intros HI. unfold after. destruct (run_Inv events w HI) as (w' & -> & HI'). exact HI'.
Qed.

(** A session in mid-pair, with one score already in the ledger. *)
Lemma start_reset_preserve_ledger_witness :
  let w := after [StartGame; CardClick 0%Z; CardClick 1%Z; Tick] (mountedFrom seededStore) in
  highScores w = [mkScore "Eva" 50 12]
  /\ (exists w', dispatch w StartGame = Ok w' /\ highScores w' = highScores w
                 /\ localStorage w' = localStorage w /\ gameState w' = playing)
  /\ (exists w', dispatch w ResetGame = Ok w' /\ highScores w' = highScores w
                 /\ localStorage w' = localStorage w /\ cards w' = [])
  /\ (exists w', dispatch w TimeoutFires = Ok w' /\ highScores w' = highScores w
                 /\ localStorage w' = localStorage w).
Proof.
  intros w.
  assert (Hfresh : Forall faceDown (memoShuffledCards w))
    by (vm_compute; repeat constructor).
  destruct (start_reset_preserve_ledger w Hfresh) as (Hs & Hr & Ho).
  split; [vm_compute; reflexivity|]. split; [|split].
  - destruct Hs as (w' & Hd & _ & _ & _ & _ & Hg & Hh & Hl). exists w'. tauto.
  - destruct Hr as (w' & Hd & Hc & _ & _ & _ & _ & Hh & Hl). exists w'. tauto.
  - destruct (timeout_fires w (mkTimeout 1000 0 1) []) as (w' & Hd & _);
      [vm_compute; reflexivity|].
    exists w'. split; [exact Hd|]. apply (Ho TimeoutFires w'); [discriminate|exact Hd].
Defined.

(** ** One deck per mount *)

Lemma run_StartGame_last (events : list Event) (w : World) :
  Inv w ->
  exists w', run w (events ++ [StartGame]) = Ok w'
             /\ Inv w'
             /\ cards w' = memoShuffledCards w
             /\ memoShuffledCards w' = memoShuffledCards w
             /\ random w' = random w.
Proof.
  intros HI. destruct (run_Inv events w HI) as (w1 & Hr & HI1).
  destruct (run_memo_random events w w1 Hr) as [Hm Hrnd].
  exists (handleStartGame w1). rewrite run_app, Hr.
  split; [apply run_one, dispatch_StartGame, HI1|].
  split; [|simpl; tauto].
  destruct HI1 as [H1 H2 H3 H4 H5]. constructor; simpl; try assumption; [constructor|lia].
Qed.

(** C7, as the code has it. The deck is generated when the component
    mounts and memoised; every start, in whichever session, puts that one
    deck on the table, and no event after mounting draws a random number. *)
Theorem deck_built_once_per_mount
    (sort : ArraySort) (pool : list string) (rows cols : Z)
    (st : Storage) (draws : list Z) :
  (forall A cmp l s, Permutation l (fst (sort A cmp l s))) ->
  exists w0,
    mountWith sort pool rows cols st draws = Ok w0
    /\ memoShuffledCards w0 = fst (buildDeck sort pool rows cols draws)
    /\ random w0 = snd (buildDeck sort pool rows cols draws)
    /\ forall session1 session2, exists w1 w2,
         run w0 (session1 ++ [StartGame]) = Ok w1
         /\ run w1 (session2 ++ [StartGame]) = Ok w2
         /\ cards w1 = memoShuffledCards w0
         /\ cards w2 = cards w1
         /\ random w1 = random w0
         /\ random w2 = random w0.
Proof.
  intros Hsort.
  destruct (mountWith_Inv sort pool rows cols st draws Hsort) as (w0 & Hm & HI0).
  exists w0. split; [assumption|].
  rewrite mountWith_eq in Hm. injection Hm as Hw0.
  destruct (loadHighScores_frame
              (initialWorld (fst (buildDeck sort pool rows cols draws)) st
                            (snd (buildDeck sort pool rows cols draws))))
    as (_ & _ & Hmemo & _ & _ & _ & Hrnd).
  rewrite Hw0 in Hmemo, Hrnd.
  split; [exact Hmemo|]. split; [exact Hrnd|]. intros session1 session2.
  destruct (run_StartGame_last session1 w0 HI0) as (w1 & Hr1 & HI1 & Hc1 & Hm1 & Hd1).
  destruct (run_StartGame_last session2 w1 HI1) as (w2 & Hr2 & _ & Hc2 & _ & Hd2).
  exists w1, w2. repeat split; congruence.
Qed.

Lemma deck_built_once_per_mount_witness :
  exists w0 w1 w2,
    mount insertionSort emptyStore someDraws = Ok w0
    /\ run w0 [StartGame] = Ok w1
    /\ run w1 [CardClick 0%Z; CardClick 1%Z; ResetGame; StartGame] = Ok w2
    /\ cards w2 = cards w1
    /\ random w2 = random w0.
Proof.
  destruct (deck_built_once_per_mount insertionSort IMAGE_PATHS GRID_ROWS GRID_COLS
              emptyStore someDraws insertionSort_permutes)
    as (w0 & Hm & _ & _ & H).
  destruct (H [] [CardClick 0%Z; CardClick 1%Z; ResetGame])
    as (w1 & w2 & Hr1 & Hr2 & _ & Hc & _ & Hd).
  exists w0, w1, w2. split; [exact Hm|]. split; [exact Hr1|]. split; [exact Hr2|].
  split; [exact Hc|exact Hd].
Defined.

(** C7, as stated, fails: the second session of this run starts on the
    very arrangement of the first, although 268 draws were still unused,
    and they still are. *)
Lemma second_session_same_arrangement :
  exists w1 w2,
    run mounted [StartGame] = Ok w1
    /\ run w1 (winningClicks ++ [NameInput "Ana"; NameSubmit; ResetGame; StartGame]) = Ok w2
    /\ gameState w2 = playing
    /\ cards w2 = cards w1
    /\ map imageId (cards w2)
       = [0; 1; 2; 3; 5; 6; 7; 8; 9; 4; 4; 0; 2; 1; 3; 8; 5; 6; 7; 9]%Z
    /\ random w2 = random w1
    /\ length (random w2) = 268%nat.
Proof.
  eexists _, _. split; [vm_compute; reflexivity|].
  split; [vm_compute; reflexivity|]. vm_compute. tauto.
Qed.

(** ** A pool that is too small *)

(** C8, as the code has it. With fewer images than the grid needs pairs,
    nothing fails: [slice] hands back the whole pool, the deck has two
    cards for each pool image and no others, the component mounts, and a
    start begins a session on that smaller deck. *)
Theorem small_pool_builds_small_deck
    (sort : ArraySort) (pool : list string) (rows cols : Z)
    (st : Storage) (draws : list Z) :
  (forall A cmp l s, Permutation l (fst (sort A cmp l s))) ->
  (Z.of_nat (length pool) < requiredImagesCount rows cols)%Z ->
  exists w0 w1,
    mountWith sort pool rows cols st draws = Ok w0
    /\ dispatch w0 StartGame = Ok w1
    /\ gameState w1 = playing
    /\ length (cards w1) = (2 * length pool)%nat
    /\ forall k, count_occ Z.eq_dec (map imageId (cards w1)) k
                 = if bool_decide (0 <= k < Z.of_nat (length pool))%Z
                   then 2%nat else 0%nat.
Proof.
  intros Hsort Hsmall.
  destruct (mountWith_Inv sort pool rows cols st draws Hsort) as (w0 & Hm & HI0).
  exists w0, (handleStartGame w0). split; [assumption|].
  split; [apply dispatch_StartGame, HI0|]. split; [reflexivity|].
  rewrite mountWith_eq in Hm. injection Hm as Hw0.
  destruct (loadHighScores_frame
              (initialWorld (fst (buildDeck sort pool rows cols draws)) st
                            (snd (buildDeck sort pool rows cols draws))))
    as (_ & _ & Hmemo & _).
  rewrite Hw0 in Hmemo. simpl in Hmemo. simpl. rewrite Hmemo.
  destruct (buildDeck_spec sort Hsort pool rows cols draws) as (Hlen & Hcount & _).
  assert (Hslice : slice0 (requiredImagesCount rows cols) pool = pool).
  { unfold slice0. destruct (_ <? 0)%Z eqn:E; [lia|]. apply take_ge. lia. }
  rewrite Hslice in Hlen, Hcount. split; [exact Hlen|exact Hcount].
Qed.

Lemma small_pool_builds_small_deck_witness :
  exists w0 w1,
    mountWith insertionSort smallPool GRID_ROWS GRID_COLS emptyStore someDraws = Ok w0
    /\ dispatch w0 StartGame = Ok w1
    /\ gameState w1 = playing
    /\ length (cards w1) = 6%nat.
Proof.
  destruct (small_pool_builds_small_deck insertionSort smallPool GRID_ROWS GRID_COLS
              emptyStore someDraws insertionSort_permutes)
    as (w0 & w1 & Hm & Hd & Hg & Hlen & _); [vm_compute; reflexivity|].
  exists w0, w1. split; [exact Hm|]. split; [exact Hd|]. split; [exact Hg|exact Hlen].
Defined.

(** C8, as stated, fails: three images for a grid that needs ten pairs, and
    yet the component mounts and a session starts, on six cards. *)
Lemma small_pool_does_not_fail :
  requiredImagesCount GRID_ROWS GRID_COLS = 10%Z
  /\ exists w0 w1,
       mountWith insertionSort smallPool GRID_ROWS GRID_COLS emptyStore someDraws = Ok w0
       /\ dispatch w0 StartGame = Ok w1
       /\ gameState w1 = playing
       /\ map imageId (cards w1) = [0; 1; 1; 2; 0; 2]%Z.
Proof.
  split; [reflexivity|]. eexists _, _. split; [vm_compute; reflexivity|].
  split; [vm_compute; reflexivity|]. vm_compute. tauto.
Qed.

(** ** Commands that are turned away *)

(** C5, as the code has it. A click while a mismatch is being resolved,
    with two cards already face up, or on a card that is face up or
    matched, and a submission whose name trims to nothing, change nothing
    and throw nothing.  (The handler checks neither the phase nor the range
    of the index; the board only offers it valid ones.) *)
Theorem rejected_commands_are_noops (w : World) :
  (forall index,
      isChecking w = true
      \/ length (flippedCards w) = 2%nat
      \/ (exists c, at_ (cards w) index = Some c
                    /\ (isFlipped c = true \/ isMatched c = true)) ->
      dispatch w (CardClick index) = Ok w)
  /\ (trim (playerName w) = "" -> dispatch w NameSubmit = Ok w).
Proof.
  split.
  - intros index H. apply dispatch_quiet. simpl. unfold handleCardClick.
    destruct H as [-> | [-> | (c & Hc & Hf)]];
      [reflexivity|simpl; now rewrite orb_true_r|].
    destruct (isChecking w || _); [reflexivity|]. rewrite Hc.
    destruct Hf as [-> | ->]; [reflexivity|now rewrite orb_true_r].
  - intros H. rewrite dispatch_NameSubmit. unfold handleNameSubmit.
    now rewrite bool_decide_eq_true_2.
Qed.

Lemma rejected_commands_are_noops_witness :
  let w := after [StartGame; CardClick 0%Z; NameInput "   "] mounted in
  dispatch w (CardClick 0%Z) = Ok w /\ dispatch w NameSubmit = Ok w.
Proof.
  intros w. destruct (rejected_commands_are_noops w) as [Hclick Hsubmit]. split.
  - apply Hclick. right. right. eexists. split; [vm_compute; reflexivity|].
    left. reflexivity.
  - apply Hsubmit. vm_compute. reflexivity.
Defined.

(** C5, as stated, fails twice over: an index outside the deck makes the
    handler throw, and a click after the time has run out, with the cards
    still on the table, turns a card over. *)
Lemma click_out_of_bounds_or_phase :
  (exists w, run mounted [StartGame] = Ok w
             /\ length (cards w) = 20%nat
             /\ dispatch w (CardClick 20%Z) = Throw TypeError
             /\ dispatch w (CardClick (-1)%Z) = Throw TypeError)
  /\ (exists w w', run mounted (StartGame :: repeat Tick 180) = Ok w
                   /\ gameState w = lost
                   /\ flippedCards w = []
                   /\ dispatch w (CardClick 0%Z) = Ok w'
                   /\ flippedCards w' = [0%Z]).
Proof.
  split.
  - eexists. split; [vm_compute; reflexivity|]. vm_compute. tauto.
  - eexists _, _. split; [vm_compute; reflexivity|].
    split; [reflexivity|]. split; [reflexivity|].
    split; [vm_compute; reflexivity|reflexivity].
Qed.

(** ** The mismatch callback and later sessions *)

Lemma timeout_fires_on_empty (w : World) (t : Timeout) (q : list Timeout) :
  timeouts w = t :: q -> cards w = [] ->
  dispatch w TimeoutFires = Ok (mismatchCallback t (dropTimeout w)).
Proof.
  intros Hq Hc. unfold dispatch. simpl. unfold fireTimeout. rewrite Hq.
  unfold NESTED_UPDATE_LIMIT. rewrite renderLoop_S.
  rewrite timerDue_same by reflexivity. simpl. unfold pass. simpl.
  unfold winEffect. simpl. rewrite Hc. simpl.
  apply renderLoop_quiet, timerDue_same; reflexivity.
Qed.

(** C6, as the code has it. The callback checks nothing before it acts:
    whenever it fires it turns face down the cards of the current state
    that carry one of its two ids, empties [flippedCards] and
    [mismatchedCards] and ends checking; moves, time and ledger it leaves
    alone.  Fired after a reset it finds no cards, and cards, flipped list,
    checking flag, phase, moves and time stay as the reset left them. *)
Theorem timeout_callback_unconditional (w : World) (t : Timeout) (q : list Timeout) :
  timeouts w = t :: q ->
  (exists w', dispatch w TimeoutFires = Ok w'
              /\ cards w'
                 = map (fun card =>
                          if (id card =? firstId t)%Z || (id card =? secondId t)%Z
                          then withIsFlipped false card else card)
                       (cards w)
              /\ flippedCards w' = [] /\ mismatchedCards w' = []
              /\ isChecking w' = false /\ timeouts w' = q
              /\ moves w' = moves w /\ timeLeft w' = timeLeft w
              /\ highScores w' = highScores w)
  /\ (exists wr w', dispatch w ResetGame = Ok wr
                    /\ dispatch wr TimeoutFires = Ok w'
                    /\ cards w' = cards wr /\ flippedCards w' = flippedCards wr
                    /\ isChecking w' = isChecking wr /\ gameState w' = gameState wr
                    /\ moves w' = moves wr /\ timeLeft w' = timeLeft wr).
Proof.
  intros Hq. split.
  - destruct (timeout_fires w t q Hq) as (w' & Hd & Hp). exists w'.
    split; [assumption|]. apply phaseOnly_fields in Hp. simpl in Hp.
    rewrite Hq in Hp. simpl in Hp. tauto.
  - exists (handleResetGame w). eexists. split; [apply dispatch_ResetGame|].
    split; [apply (timeout_fires_on_empty _ t q); [exact Hq|reflexivity]|].
    simpl. tauto.
Qed.

Lemma timeout_callback_unconditional_witness :
  let w := after (StartGame :: repeat Tick 179 ++ [CardClick 0%Z; CardClick 1%Z; Tick])
                 mounted in
  gameState w = lost
  /\ exists wr w', dispatch w ResetGame = Ok wr
                   /\ dispatch wr TimeoutFires = Ok w'
                   /\ cards w' = cards wr /\ flippedCards w' = flippedCards wr
                   /\ isChecking w' = isChecking wr.
Proof.
  intros w. split; [reflexivity|].
  destruct (timeout_callback_unconditional w (mkTimeout 1000 0 1) [])
    as (_ & wr & w' & Hr & Hd & Hc & Hf & Hi & _); [reflexivity|].
  exists wr, w'. split; [exact Hr|]. split; [exact Hd|].
  split; [exact Hc|]. split; [exact Hf|exact Hi].
Defined.

(** C6, as stated, fails. The time runs out while cards 0 and 1 wait to be
    turned back; the player resets, starts again and turns card 0; then the
    callback of the lost game fires, and in the new game card 0 lies face
    down again and [flippedCards] is empty. *)
Lemma stale_callback_hits_new_session :
  exists wb wa c0 c0',
    run mounted (StartGame :: repeat Tick 179
                 ++ [CardClick 0%Z; CardClick 1%Z; Tick; ResetGame; StartGame;
                     CardClick 0%Z]) = Ok wb
    /\ gameState wb = playing
    /\ timeouts wb = [mkTimeout 1000 0 1]
    /\ flippedCards wb = [0%Z]
    /\ at_ (cards wb) 0%Z = Some c0 /\ isFlipped c0 = true
    /\ dispatch wb TimeoutFires = Ok wa
    /\ flippedCards wa = []
    /\ at_ (cards wa) 0%Z = Some c0' /\ isFlipped c0' = false.
Proof.
  eexists _, _, _, _. split; [vm_compute; reflexivity|].
  split; [reflexivity|]. split; [reflexivity|]. split; [reflexivity|].
  split; [reflexivity|]. split; [reflexivity|].
  split; [vm_compute; reflexivity|]. split; [reflexivity|].
  split; reflexivity.
Qed.

(** ** Persistence *)

(** A record that reaches the store: ledger and store both hold the
    updated ledger. *)
Lemma submit_records (w : World) :
  writable (localStorage w) = true -> trim (playerName w) <> "" ->
  let entry := mkScore (trim (playerName w)) (GAME_DURATION - timeLeft w) (moves w) in
  exists w', dispatch w NameSubmit = Ok w'
             /\ gameState w' = won
             /\ highScores w' = updatedScores (highScores w) entry
             /\ item (localStorage w') = Some (JsonScores (highScores w')).
Proof.
  intros Hw Hname entry. eexists. split; [apply dispatch_NameSubmit|].
  unfold handleNameSubmit, setItem. rewrite (bool_decide_eq_false_2 _ Hname), Hw.
  simpl. tauto.
Qed.

(** On text of the declared kind [loadCell] is the load effect of the
    component. *)
Lemma loadCell_typed (w : World) :
  highScores w = [] -> console w = [] ->
  loadCell (readable (localStorage w)) (Typed <$> item (localStorage w))
  = (Scores (highScores (loadHighScores w)), console (loadHighScores w)).
Proof.
  intros Hh Hc. unfold loadCell, loadHighScores, getItem.
  destruct (readable (localStorage w)); [|simpl; now rewrite Hh, Hc].
  destruct (item (localStorage w)) as [text|]; simpl; [|now rewrite Hh, Hc].
  destruct (truthy text); [|now rewrite Hh, Hc].
  destruct text as [scores|isEmpty]; simpl; [now rewrite Hc|now rewrite Hh, Hc].
Qed.

(** One event and the ledger: a submission with a name that is not blank
    records its entry when the store takes the write; nothing else changes
    the ledger, and a store that refuses writes keeps it as it is. *)
Lemma dispatch_ledger_step (w w1 : World) (e : Event) :
  dispatch w e = Ok w1 ->
  (writable (localStorage w) = true ->
     highScores w1
     = recordAll (highScores w) (if bool_decide (e = NameSubmit) then submission w else [])
     /\ writable (localStorage w1) = true)
  /\ (writable (localStorage w) = false ->
        highScores w1 = highScores w /\ localStorage w1 = localStorage w).
Proof.
  intros Hd. destruct (decide (e = NameSubmit)) as [->|Hne].
  - rewrite dispatch_NameSubmit in Hd. injection Hd as <-.
    rewrite bool_decide_eq_true_2 by reflexivity.
    unfold handleNameSubmit, submission, setItem.
    case_bool_decide; [simpl; tauto|].
    destruct (writable (localStorage w)); simpl; split; intros; (discriminate || tauto).
  - rewrite bool_decide_eq_false_2 by assumption.
    apply dispatch_sameLedger in Hd as (Hh & Hl & _); [|assumption].
    rewrite Hh, Hl. simpl. split; intros H; tauto.
Qed.

Lemma run_step (w w' : World) (e : Event) (events : list Event) :
  run w (e :: events) = Ok w' ->
  run (after [e] w) events = Ok w'
  /\ (dispatch w e = Ok (after [e] w) \/ (after [e] w = w /\ e <> NameSubmit)).
Proof.
  unfold after, dispatch. simpl.
  destruct (handle e w) as [[[w0 dc] df]|err] eqn:Hh.
  - destruct (renderLoop _ w w0 dc df) as [w1|err]; [|discriminate].
    intros H. split; [assumption|now left].
  - intros H. split; [assumption|]. right. split; [reflexivity|].
    intros ->. discriminate.
Qed.

Lemma run_ledger_writable (events : list Event) (w w' : World) :
  run w events = Ok w' -> writable (localStorage w) = true ->
  highScores w' = recordAll (highScores w) (submitted w events).
Proof.
  revert w. induction events as [|e events IH]; intros w Hr Hw.
  - simpl in Hr. now injection Hr as <-.
  - apply run_step in Hr as [Hr [Hd | [Heq Hne]]].
    + apply dispatch_ledger_step in Hd as [Hd _]. destruct (Hd Hw) as [Hh Hw1].
      rewrite (IH _ Hr Hw1), Hh. simpl submitted. unfold recordAll.
      now rewrite fold_left_app.
    + simpl submitted. rewrite bool_decide_eq_false_2 by assumption. simpl.
      rewrite Heq in *. now apply IH.
Qed.

Lemma run_ledger_unwritable (events : list Event) (w w' : World) :
  run w events = Ok w' -> writable (localStorage w) = false ->
  highScores w' = highScores w /\ localStorage w' = localStorage w.
Proof.
  revert w. induction events as [|e events IH]; intros w Hr Hw.
  - simpl in Hr. now injection Hr as <-.
  - apply run_step in Hr as [Hr [Hd | [Heq Hne]]].
    + apply dispatch_ledger_step in Hd as [_ Hd]. destruct (Hd Hw) as [Hh Hl].
      destruct (IH _ Hr) as [A B]; [congruence|]. split; congruence.
    + rewrite Heq in *. now apply IH.
Qed.

(** C4, as the code has it. Through any events, on a store that takes the
    writes, the ledger is the fold of the record over the entries
    submitted, in order, from the ledger the run began with; if that ledger
    was in order, or at least one entry was submitted, the ledger is sorted
    by time and then by moves, holds at most five entries and is the first
    five, in stable sorted order, of the entries it began with and the
    entries submitted: what is left out is no better than anything kept,
    and nothing is left out while fewer than five are kept.  On a store
    that refuses the writes the ledger stays as it was, whatever is
    submitted. *)
Theorem ledger_after_submissions (w w' : World) (events : list Event) :
  run w events = Ok w' ->
  let entries := submitted w events in
  (writable (localStorage w) = true ->
     highScores w' = recordAll (highScores w) entries
     /\ ((StronglySorted scoreLe (highScores w) /\ (length (highScores w) <= 5)%nat)
         \/ entries <> [] ->
         StronglySorted scoreLe (highScores w')
         /\ (length (highScores w') <= 5)%nat
         /\ highScores w' = take 5 (sortBy compareScores (highScores w ++ entries))
         /\ exists dropped,
              Permutation (highScores w ++ entries) (highScores w' ++ dropped)
              /\ (forall kept d, kept ∈ highScores w' -> d ∈ dropped -> scoreLe kept d)
              /\ (dropped <> [] -> length (highScores w') = 5%nat)))
  /\ (writable (localStorage w) = false -> highScores w' = highScores w).
Proof.
  intros Hr entries. split.
  - intros Hw. pose proof (run_ledger_writable events w w' Hr Hw) as Hh.
    fold entries in Hh. split; [exact Hh|]. intros Hgood.
    rewrite (recordAll_first_five _ _ Hgood) in Hh. rewrite Hh.
    destruct (first_five_are_best (highScores w ++ entries)) as (A & B & C).
    split; [exact A|]. split; [exact B|]. split; [reflexivity|exact C].
  - intros Hw. now apply (run_ledger_unwritable events w w' Hr).
Qed.

(** Two games won on an empty, writable store: both entries are in the
    ledger, the faster one first. *)
Lemma ledger_after_submissions_witness :
  let w' := after twoWins mounted in
  submitted mounted twoWins = [mkScore "Ana" 0 10; mkScore "Bo" 3 10]
  /\ highScores w' = [mkScore "Ana" 0 10; mkScore "Bo" 3 10]
  /\ StronglySorted scoreLe (highScores w')
  /\ highScores w' = take 5 (sortBy compareScores (submitted mounted twoWins)).
Proof.
  intros w'.
  assert (Hempty : highScores mounted = []) by (vm_compute; reflexivity).
  destruct (ledger_after_submissions mounted w' twoWins) as [Hsaved _];
    [vm_compute; reflexivity|].
  destruct Hsaved as (_ & Hgood); [vm_compute; reflexivity|].
  destruct Hgood as (Hsorted & _ & Hfive & _).
  { left. rewrite Hempty. split; [constructor|simpl; lia]. }
  rewrite Hempty, app_nil_l in Hfive.
  split; [vm_compute; reflexivity|]. split; [vm_compute; reflexivity|].
  split; [exact Hsorted|exact Hfive].
Defined.

(** C4, as stated, fails. A game won on a store that cannot be written,
    with one slower score loaded from it: the entry submitted is the best
    ever, and the ledger does not hold it.  And a ledger loaded out of
    order stays out of order for as long as nothing is recorded. *)
Lemma unsaved_submission_missing_from_ledger :
  (exists w, run (mountedFrom readOnlyStore)
                 (StartGame :: winningClicks ++ [NameInput "Ana"; NameSubmit]) = Ok w
             /\ gameState w = won
             /\ submitted (mountedFrom readOnlyStore)
                          (StartGame :: winningClicks ++ [NameInput "Ana"; NameSubmit])
                = [mkScore "Ana" 0 10]
             /\ highScores w = [mkScore "Eva" 50 12]
             /\ take 5 (sortBy compareScores [mkScore "Eva" 50 12; mkScore "Ana" 0 10])
                = [mkScore "Ana" 0 10; mkScore "Eva" 50 12])
  /\ (exists w, run (mountedFrom unorderedStore) [StartGame; ResetGame] = Ok w
                /\ highScores w = [mkScore "Eva" 50 12; mkScore "Ana" 42 11]
                /\ ~ StronglySorted scoreLe
                       [mkScore "Eva" 50 12; mkScore "Ana" 42 11]).
Proof.
  split.
  - eexists. split; [vm_compute; reflexivity|]. vm_compute. tauto.
  - eexists. split; [vm_compute; reflexivity|]. split; [reflexivity|].
    intros H. inversion H as [|x l _ Hall]; subst.
    inversion Hall as [|y m Hle _]; subst. unfold scoreLe in Hle. simpl in Hle. lia.
Qed.

(** C9, as the code has it. With no stored ledger, an unreadable store or
    stored text that [JSON.parse] rejects, the component mounts with an
    empty ledger and shows the empty table, and logs the failure in the
    latter two cases.  When saving fails during a submission the failure is
    logged, nothing is thrown and the phase becomes [won]; the ledger in
    memory stays as it was before the submission, as does the store.
    Stored text that parses to something else than a ledger is not caught:
    the load effect puts the value into the cell and logs nothing; the
    spread of a later submission throws on it; and when the value is
    [null], the start screen throws while rendering. *)
Theorem persistence_failures_nonfatal :
  (forall sort pool rows cols st draws,
      item st = None \/ readable st = false
      \/ (exists isEmpty, item st = Some (Malformed isEmpty)) ->
      exists w0, mountWith sort pool rows cols st draws = Ok w0
                 /\ highScores w0 = []
                 /\ renderScores (gameState w0) (Scores (highScores w0))
                    = Ok (Some NoScoresYet)
                 /\ loadCell (readable st) (Typed <$> item st)
                    = (Scores (highScores w0), console w0)
                 /\ (readable st = false \/ item st = Some (Malformed false) ->
                     console w0 = ["Failed to load high scores:"]))
  /\ (forall w,
         writable (localStorage w) = false -> trim (playerName w) <> "" ->
         exists w', dispatch w NameSubmit = Ok w'
                    /\ gameState w' = won
                    /\ highScores w' = highScores w
                    /\ localStorage w' = localStorage w
                    /\ console w' = console w ++ ["Failed to save high scores:"])
  /\ (forall v,
         loadCell true (Some (JsonPrimitive v)) = (Other v, [])
         /\ (forall newScore, spreadScores (Other v) newScore = Throw TypeError)
         /\ renderScores start (Other v)
            = match v with
              | JsNull => Throw TypeError
              | _ => Ok (Some NoScoresYet)
              end).
Proof.
  split; [|split].
  - intros sort pool rows cols st draws Hst. rewrite mountWith_eq.
    eexists. split; [reflexivity|].
    set (w := initialWorld _ st _).
    pose proof (loadCell_typed w eq_refl eq_refl) as Hcell.
    destruct (loadHighScores_frame w) as (_ & _ & _ & Hg & _).
    rewrite Hg. change (gameState w) with start.
    change (localStorage w) with st in Hcell.
    assert (Hempty : highScores (loadHighScores w) = []).
    { unfold loadHighScores, getItem. change (localStorage w) with st.
      destruct (readable st); [|reflexivity].
      destruct Hst as [-> | [? | (isEmpty & ->)]]; [reflexivity|discriminate|].
      simpl. now destruct isEmpty. }
    split; [exact Hempty|]. rewrite Hempty in *.
    split; [reflexivity|]. split; [exact Hcell|].
    intros Hlog. unfold loadHighScores, getItem. change (localStorage w) with st.
    destruct (readable st); [|reflexivity].
    destruct Hlog as [? | ->]; [discriminate|reflexivity].
  - intros w Hw Hname. eexists. split; [apply dispatch_NameSubmit|].
    unfold handleNameSubmit, setItem. rewrite (bool_decide_eq_false_2 _ Hname), Hw.
    simpl. tauto.
  - intros v. split; [reflexivity|]. split; [reflexivity|]. now destruct v.
Qed.

Lemma persistence_failures_nonfatal_witness :
  (exists w0, mount insertionSort (mkStorage (Some (Malformed false)) true true)
                    someDraws = Ok w0
              /\ highScores w0 = []
              /\ console w0 = ["Failed to load high scores:"])
  /\ (let w := after (StartGame :: winningClicks ++ [NameInput " Ana "])
                     (mountedFrom fullStore) in
      gameState w = awaitingName
      /\ exists w', dispatch w NameSubmit = Ok w'
                    /\ gameState w' = won
                    /\ highScores w' = highScores w
                    /\ console w' = ["Failed to save high scores:"]).
Proof.
  destruct persistence_failures_nonfatal as (Hload & Hsave & _). split.
  - destruct (Hload insertionSort IMAGE_PATHS GRID_ROWS GRID_COLS
                (mkStorage (Some (Malformed false)) true true) someDraws)
      as (w0 & Hm & Hh & _ & _ & Hc).
    { right. right. eexists. reflexivity. }
    exists w0. split; [exact Hm|]. split; [exact Hh|]. apply Hc.
    right. reflexivity.
  - intros w. split; [vm_compute; reflexivity|].
    destruct (Hsave w) as (w' & Hd & Hg & Hh & _ & Hc);
      [vm_compute; reflexivity | vm_compute; discriminate |].
    exists w'. split; [exact Hd|]. split; [exact Hg|]. split; [exact Hh|].
    rewrite Hc. vm_compute. reflexivity.
Defined.

(** C9, as stated, fails twice.  Stored text [null] is corrupt data the
    load does not survive: nothing is caught or logged, [null] lands in the
    cell, and the start screen, the first thing to render, throws.  And a
    failed save loses the entry: the same won game, once with a store that
    takes the write and once with one that refuses it, leaves the entry in
    the ledger in the first case and an empty ledger, with the failure
    logged, in the second. *)
Lemma null_text_crashes_failed_save_drops_entry :
  (loadCell true (Some (JsonPrimitive JsNull)) = (Other JsNull, [])
   /\ gameState mounted = start
   /\ renderScores start (Other JsNull) = Throw TypeError)
  /\ (exists w, run (mountedFrom emptyStore)
                    (StartGame :: winningClicks ++ [NameInput " Ana "; NameSubmit]) = Ok w
                /\ gameState w = won
                /\ highScores w = [mkScore "Ana" 0 10])
  /\ (exists w, run (mountedFrom fullStore)
                    (StartGame :: winningClicks ++ [NameInput " Ana "; NameSubmit]) = Ok w
                /\ gameState w = won
                /\ console w = ["Failed to save high scores:"]
                /\ highScores w = []
                /\ item (localStorage w) = None).
Proof.
  split; [split; [reflexivity|split; [vm_compute; reflexivity|reflexivity]]|].
  split; (eexists; split; [vm_compute; reflexivity|]); vm_compute; tauto.
Qed.
